(** * Screenshot-File-Automator: the OCR interpretation engine of
    [src/screenshot_processor.py] ([is_valid_time], [fix_common_digit_errors],
    [extract_time_advanced], [find_all_details]) over a shallow embedding.

    Python [str] values are modelled as lists of ASCII characters; on ASCII
    text [str.upper], [str.strip], [\b], [\s] and [\d] behave as written
    below.  The [re] patterns used by the source are embedded as terms of a
    small backtracking matcher ([Regex]) with Python's ordered alternation,
    greedy bounded repetition and capturing groups. OCR confidences
    (Python floats) are modelled as rationals. *)

From Stdlib Require Import Ascii String List Bool ZArith QArith Qabs Lia Permutation.
Import ListNotations.
Open Scope nat_scope.

(* ------------------------------------------------------------------ *)
(** ** Python strings *)

Module Py.

Definition str := list ascii.

(** A string literal of the source. *)
Definition lit (s : string) : str := list_ascii_of_string s.

Definition code (c : ascii) : nat := nat_of_ascii c.

Definition between (lo hi : ascii) (c : ascii) : bool :=
  (code lo <=? code c)%nat && (code c <=? code hi)%nat.

Definition is_digit (c : ascii) : bool := between "0" "9" c.
Definition is_upper (c : ascii) : bool := between "A" "Z" c.
Definition is_lower (c : ascii) : bool := between "a" "z" c.

(** [str.isspace] on ASCII: tab, LF, VT, FF, CR, the separators
    0x1c-0x1f, and space.  This is also Python's [\s] for [str] patterns. *)
Definition is_space (c : ascii) : bool :=
  ((9 <=? code c) && (code c <=? 13))%nat
  || ((28 <=? code c) && (code c <=? 32))%nat.

(** Python's [\w] on ASCII: letters, digits and underscore. *)
Definition is_word (c : ascii) : bool :=
  is_digit c || is_upper c || is_lower c || Ascii.eqb c "_".

Definition upper_char (c : ascii) : ascii :=
  if is_lower c then ascii_of_nat (code c - 32) else c.

(** [s.upper()] *)
Definition upper (s : str) : str := map upper_char s.

Fixpoint lstrip (s : str) : str :=
  match s with
  | c :: s' => if is_space c then lstrip s' else s
  | [] => []
  end.

(** [s.strip()] *)
Definition strip (s : str) : str := rev (lstrip (rev (lstrip s))).

(** [s.replace(old, new)] for one-character [old] and [new], the only
    form the source uses. *)
Definition replace (old new : ascii) (s : str) : str :=
  map (fun c => if Ascii.eqb c old then new else c) s.

(** [sep.join(xs)] *)
Fixpoint join (sep : str) (xs : list str) : str :=
  match xs with
  | [] => []
  | [x] => x
  | x :: xs' => x ++ sep ++ join sep xs'
  end.

(** [s.split(sep)] for a one-character separator. *)
Fixpoint split (sep : ascii) (s : str) : list str :=
  match s with
  | [] => [[]]
  | c :: s' =>
      if Ascii.eqb c sep then [] :: split sep s'
      else match split sep s' with
           | w :: ws => (c :: w) :: ws
           | [] => [[c]]
           end
  end.

Definition contains_char (c : ascii) (s : str) : bool :=
  existsb (Ascii.eqb c) s.

Fixpoint str_eqb (a b : str) : bool :=
  match a, b with
  | [], [] => true
  | x :: a', y :: b' => Ascii.eqb x y && str_eqb a' b'
  | _, _ => false
  end.

(** [s.endswith(suffix)] *)
Definition endswith (s suffix : str) : bool :=
  (length suffix <=? length s)%nat
  && str_eqb (skipn (length s - length suffix) s) suffix.

(** [s.startswith(c)] for a one-character prefix. *)
Definition startswith_char (s : str) (c : ascii) : bool :=
  match s with
  | x :: _ => Ascii.eqb x c
  | [] => false
  end.

Definition digit_val (c : ascii) : Z := Z.of_nat (code c - code "0").

Fixpoint digits_val (acc : Z) (s : str) : Z :=
  match s with
  | [] => acc
  | c :: s' => digits_val (10 * acc + digit_val c) s'
  end.

(** Underscores of an [int()] literal: only single ones, between digits. *)
Fixpoint well_underscored (prev_digit : bool) (s : str) : bool :=
  match s with
  | [] => prev_digit
  | c :: s' =>
      if is_digit c then well_underscored true s'
      else if Ascii.eqb c "_" then prev_digit && well_underscored false s'
      else false
  end.

(** [int(s)] on a [str]: surrounding whitespace, an optional sign, then
    decimal digits with optional single underscores between them;
    [None] is the [ValueError]. *)
Definition int (s : str) : option Z :=
  let t := strip s in
  let '(sign, body) :=
    match t with
    | c :: t' => if Ascii.eqb c "-" then ((-1)%Z, t')
                 else if Ascii.eqb c "+" then (1%Z, t') else (1%Z, t)
    | [] => (1%Z, [])
    end in
  match body with
  | [] => None
  | _ => if well_underscored false body
         then Some (sign * digits_val 0 (filter is_digit body))%Z
         else None
  end.

Fixpoint digits_of_pos (fuel : nat) (n : Z) (acc : str) : str :=
  match fuel with
  | O => acc
  | S f =>
      let d := ascii_of_nat (Z.to_nat (n mod 10) + code "0") in
      if (n <? 10)%Z then d :: acc else digits_of_pos f (n / 10) (d :: acc)
  end.

(** [str(n)] for a Python [int]. *)
Definition str_of_Z (n : Z) : str :=
  if (n <? 0)%Z then "-"%char :: digits_of_pos (S (Z.to_nat (Z.log2 (- n)))) (- n) []
  else digits_of_pos (S (Z.to_nat (Z.log2 n))) n [].

(** [f"{n:0wd}"]: zero padding to width [w] after the sign. *)
Definition fmt_0d (w : nat) (n : Z) : str :=
  let sign := if (n <? 0)%Z then ["-"%char] else [] in
  let ds := str_of_Z (Z.abs n) in
  sign ++ repeat "0"%char (w - length sign - length ds) ++ ds.

End Py.

Import Py.

(* ------------------------------------------------------------------ *)
(** ** The [re] module: a backtracking matcher *)

Module Regex.

(** Patterns.  [Rep p lo hi] is the greedy repetition [p{lo,hi}] of a
    character class ([hi = None] for an unbounded repetition, so [*] is
    [Rep p 0 None] and [+] is [Rep p 1 None]). *)
Inductive regex : Type :=
| Cls (p : ascii -> bool)
| Seq (r1 r2 : regex)
| Alt (r1 r2 : regex)
| Grp (n : nat) (r : regex)
| WordB
| Rep (p : ascii -> bool) (lo : nat) (hi : option nat).

(** Captured groups, most recent binding first. *)
Definition caps := list (nat * (nat * nat)).

Definition Lit (c : ascii) : regex := Cls (Ascii.eqb c).

Fixpoint Lits (s : str) : regex :=
  match s with
  | [] => Rep (fun _ => false) 0 (Some 0)
  | [c] => Lit c
  | c :: s' => Seq (Lit c) (Lits s')
  end.

Definition word_at (s : str) (i : nat) : bool :=
  match nth_error s i with Some c => is_word c | None => false end.

(** [\b] at position [i]. *)
Definition at_boundary (s : str) (i : nat) : bool :=
  xorb (match i with O => false | S j => word_at s j end) (word_at s i).

(** Length of the run of [p]-characters starting at [i], at most [hi]. *)
Fixpoint run (p : ascii -> bool) (s : str) (hi : option nat) : nat :=
  match s, hi with
  | _, Some O => O
  | [], _ => O
  | c :: s', _ =>
      if p c then S (run p s' (option_map pred hi)) else O
  end.

(** Greedy backtracking over the repetition count: [n], [n-1], ..., [lo]. *)
Fixpoint try_down {A} (n lo : nat) (f : nat -> option A) : option A :=
  if (n <? lo)%nat then None
  else match f n with
       | Some x => Some x
       | None => match n with O => None | S n' => try_down n' lo f end
       end.

Definition result := option (nat * caps).

(** [mt r s i cp k]: match [r] at position [i] of [s], then continue with
    [k]; the first success in Python's priority order is returned. *)
Fixpoint mt (r : regex) (s : str) (i : nat) (cp : caps)
         (k : nat -> caps -> result) {struct r} : result :=
  match r with
  | Cls p =>
      match nth_error s i with
      | Some c => if p c then k (S i) cp else None
      | None => None
      end
  | Seq r1 r2 => mt r1 s i cp (fun j cp' => mt r2 s j cp' k)
  | Alt r1 r2 =>
      match mt r1 s i cp k with
      | Some x => Some x
      | None => mt r2 s i cp k
      end
  | Grp n r1 => mt r1 s i cp (fun j cp' => k j ((n, (i, j)) :: cp'))
  | WordB => if at_boundary s i then k i cp else None
  | Rep p lo hi =>
      try_down (run p (skipn i s) hi) lo (fun l => k (i + l) cp)
  end.

(** A match of [r] starting exactly at [i]: its end and its groups. *)
Definition match_at (r : regex) (s : str) (i : nat) : result :=
  mt r s i [] (fun j cp => Some (j, cp)).

Fixpoint scan (fuel : nat) (r : regex) (s : str) (i : nat)
  : list (nat * nat * caps) :=
  match fuel with
  | O => []
  | S f =>
      if (length s <? i)%nat then []
      else match match_at r s i with
           | Some (j, cp) =>
               (i, j, cp) :: scan f r s (if (j <=? i)%nat then S i else j)
           | None => scan f r s (S i)
           end
  end.

(** All non-overlapping matches, left to right ([re.finditer]). *)
Definition finditer (r : regex) (s : str) : list (nat * nat * caps) :=
  scan (S (length s)) r s 0.

Definition slice (s : str) (i j : nat) : str := firstn (j - i) (skipn i s).

(** [m.group(n)]; a group that did not take part is [''] as in [findall]. *)
Definition group (s : str) (cp : caps) (n : nat) : str :=
  match find (fun e => Nat.eqb (fst e) n) cp with
  | Some (_, (i, j)) => slice s i j
  | None => []
  end.

(** [re.findall] for a pattern with [ng >= 2] groups: the group tuples. *)
Definition findall (ng : nat) (r : regex) (s : str) : list (list str) :=
  map (fun '(_, _, cp) => map (group s cp) (seq 1 ng)) (finditer r s).

(** [re.search]: the leftmost match. *)
Definition search (r : regex) (s : str) : option (nat * nat * caps) :=
  hd_error (finditer r s).

(** Replacement templates: literal text and group references [\n]. *)
Inductive piece := PLit (t : str) | PGrp (n : nat).

Definition expand (s : str) (cp : caps) (tpl : list piece) : str :=
  flat_map (fun p => match p with PLit t => t | PGrp n => group s cp n end) tpl.

Fixpoint sub_from (s : str) (last : nat) (tpl : list piece)
         (ms : list (nat * nat * caps)) : str :=
  match ms with
  | [] => skipn last s
  | (i, j, cp) :: ms' => slice s last i ++ expand s cp tpl ++ sub_from s j tpl ms'
  end.

(** [re.sub(pattern, repl, s)] *)
Definition sub (r : regex) (tpl : list piece) (s : str) : str :=
  sub_from s 0 tpl (finditer r s).

End Regex.

Import Regex.

(* ------------------------------------------------------------------ *)
(** ** Association lists with Python [dict] insertion order *)

Module Dict.

Fixpoint lookup {V} (d : list (str * V)) (k : str) : option V :=
  match d with
  | [] => None
  | (k', v) :: d' => if str_eqb k' k then Some v else lookup d' k
  end.

(** [d[k] = v]: an existing key keeps its position, a new key goes last. *)
Fixpoint set {V} (d : list (str * V)) (k : str) (v : V) : list (str * V) :=
  match d with
  | [] => [(k, v)]
  | (k', v') :: d' => if str_eqb k' k then (k', v) :: d' else (k', v') :: set d' k v
  end.

(** A [dict] display [{k1: v1, k2: v2, ...}]: a repeated key keeps its
    first position and takes its last value. *)
Definition of_items {V} (items : list (str * V)) : list (str * V) :=
  fold_left (fun d '(k, v) => set d k v) items [].

End Dict.

(* ------------------------------------------------------------------ *)
(** ** [is_valid_time] and [fix_common_digit_errors] *)

Definition valid_hm (h m : Z) : bool :=
  (9 <=? h)%Z && (h <=? 15)%Z && (0 <=? m)%Z && (m <=? 59)%Z.

Definition parse_hm (parts : list str) : bool :=
  match parts with
  | [a; b] =>
      match int a, int b with
      | Some hour, Some minute => valid_hm hour minute
      | _, _ => false
      end
  | _ => false
  end.

(** [is_valid_time(time_str)] (lines 42-63). *)
Definition is_valid_time (time_str : str) : bool :=
  if contains_char ";" time_str then parse_hm (Py.split ";" time_str)
  else if contains_char ":" time_str then parse_hm (Py.split ":" time_str)
  else if contains_char "." time_str then parse_hm (Py.split "." time_str)
  else false.

(** The dictionary display of [fix_common_digit_errors] (lines 124-145),
    with its repeated keys ['G'] and ['g']. *)
Definition corrections_literal : list (str * str) :=
  map (fun '(a, b) => (lit a, lit b))
  [ ("O", "0"); ("o", "0"); ("Q", "0"); ("D", "0"); ("U", "0"); ("C", "0");
    ("I", "1"); ("l", "1"); ("L", "1"); ("|", "1"); ("J", "1"); ("i", "1");
    ("Z", "2"); ("z", "2"); ("R", "2");
    ("E", "3"); ("e", "3");
    ("A", "4"); ("a", "4");
    ("S", "5"); ("s", "5"); ("G", "5");
    ("G", "6"); ("g", "6"); ("b", "6");
    ("T", "7"); ("t", "7"); ("?", "7");
    ("B", "8"); ("8", "8");
    ("g", "9"); ("q", "9") ]%string.

Definition corrections : list (str * str) := Dict.of_items corrections_literal.

Definition replace_item (result : str) (item : str * str) : str :=
  match item with
  | ([wrong], [right_]) => Py.replace wrong right_ result
  | _ => result
  end.

(** [fix_common_digit_errors(text)]: [result.replace(wrong, right)] for
    each item of the dictionary in order. *)
Definition fix_common_digit_errors (text : str) : str :=
  fold_left replace_item corrections text.

(* ------------------------------------------------------------------ *)
(** ** The patterns of [extract_time_advanced] *)

Module Pat.

Fixpoint seqs (rs : list regex) : regex :=
  match rs with
  | [] => Lits []
  | [r] => r
  | r :: rs' => Seq r (seqs rs')
  end.

Fixpoint alts (rs : list regex) : regex :=
  match rs with
  | [] => Cls (fun _ => false)
  | [r] => r
  | r :: rs' => Alt r (alts rs')
  end.

Definition rng (lo hi : ascii) : regex := Cls (between lo hi).
Definition D09 : regex := rng "0" "9".
Definition D05 : regex := rng "0" "5".
(** [[:;.]] *)
Definition SEP : regex :=
  Cls (fun c => Ascii.eqb c ":" || Ascii.eqb c ";" || Ascii.eqb c ".").
(** [([0-9]|1[0-5])] as group [n] *)
Definition HOUR (n : nat) : regex := Grp n (Alt D09 (Seq (Lit "1") D05)).
(** [(9|10|11|12|13|14|15)] *)
Definition HOUR_VALID : regex :=
  Grp 1 (alts (map (fun t => Lits (lit t)) ["9"; "10"; "11"; "12"; "13"; "14"; "15"]%string)).

(** [\b([0-9]|1[0-5])[:;.]([0-5][0-9])\b] *)
Definition time_std : regex := seqs [WordB; HOUR 1; SEP; Grp 2 (Seq D05 D09); WordB].
(** [\b([0-9]|1[0-5])[:;.]([0-9][0-9])\b] *)
Definition time_any_min : regex := seqs [WordB; HOUR 1; SEP; Grp 2 (Seq D09 D09); WordB].
(** [\b(9|10|11|12|13|14|15)[:;.]([0-5][0-9])\b] *)
Definition time_valid_hour : regex := seqs [WordB; HOUR_VALID; SEP; Grp 2 (Seq D05 D09); WordB].
(** [\b(9|10|11|12|13|14|15)[:;.]([0-9]{2})\b] *)
Definition time_valid_hour2 : regex :=
  seqs [WordB; HOUR_VALID; SEP; Grp 2 (Rep is_digit 2 (Some 2)); WordB].

(** Strategy 2: [\b([67])([01])[:;.]([0-5][0-9])\b],
    [\b([789])([0-9])[:;.]([0-5][0-9])\b],
    [\b([0-9])([0-9])[:;.]([6-9][0-9])\b] *)
Definition prob1 : regex :=
  seqs [WordB; Grp 1 (rng "6" "7"); Grp 2 (rng "0" "1"); SEP; Grp 3 (Seq D05 D09); WordB].
Definition prob2 : regex :=
  seqs [WordB; Grp 1 (rng "7" "9"); Grp 2 D09; SEP; Grp 3 (Seq D05 D09); WordB].
Definition prob3 : regex :=
  seqs [WordB; Grp 1 D09; Grp 2 D09; SEP; Grp 3 (Seq (rng "6" "9") D09); WordB].

(** Strategy 4: [\b([0-9]|1[0-5])\s+([0-5][0-9])\b] *)
Definition separated : regex :=
  seqs [WordB; HOUR 1; Rep is_space 1 None; Grp 2 (Seq D05 D09); WordB].

(** Strategy 5: the four [(bad_pattern, fix_pattern)] pairs. *)
Definition bad1 : regex := seqs [WordB; Lit "7"; Grp 1 D05; SEP; Grp 2 (Seq D05 D09); WordB].
Definition bad2 : regex := seqs [WordB; Lit "6"; Grp 1 D05; SEP; Grp 2 (Seq D05 D09); WordB].
Definition bad3 : regex := seqs [WordB; HOUR 1; SEP; Lit "7"; Grp 2 D09; WordB].
Definition bad4 : regex := seqs [WordB; HOUR 1; SEP; Lit "6"; Grp 2 D09; WordB].

Definition bad_reading_fixes : list (regex * list piece) :=
  [ (bad1, [PLit (lit "1"); PGrp 1; PLit (lit ";"); PGrp 2]);
    (bad2, [PLit (lit "1"); PGrp 1; PLit (lit ";"); PGrp 2]);
    (bad3, [PGrp 1; PLit (lit ";1"); PGrp 2]);
    (bad4, [PGrp 1; PLit (lit ";0"); PGrp 2]) ].

End Pat.

(* ------------------------------------------------------------------ *)
(** ** [extract_time_advanced] (lines 153-300) *)

(** An EasyOCR result [(bbox, text, prob)]; [conf = None] is a result
    tuple without its third component. *)
Record detection := mkDet {
  bbox : list (Z * Z);
  text : str;
  conf : option Q
}.

(** [result[2] if len(result) > 2 else 0.5] *)
Definition confidence_of (d : detection) : Q :=
  match conf d with Some c => c | None => 1 # 2 end.

(** [" ".join([res[1] for res in ocr_results])] *)
Definition full_text (ocr_results : list detection) : str :=
  join (lit " ") (map text ocr_results).

(** [h, m = int(hour), int(minute)], skipping the match on [ValueError]. *)
Definition int_pair (g : list str) : list (Z * Z) :=
  match g with
  | [hour; minute] =>
      match int hour, int minute with
      | Some h, Some m => [(h, m)]
      | _, _ => []
      end
  | _ => []
  end.

(** An internally generated candidate: [(h, m)] before the validity test,
    with the confidence it would be recorded with. *)
Definition candidate := (Z * Z * Q)%type.

Definition with_conf (c : Q) (hm : Z * Z) : candidate := (fst hm, snd hm, c).

(** Strategy 1: the pairs found in one detection's text. *)
Definition strategy1_pairs (t : str) : list (Z * Z) :=
  let cleaned_text := fix_common_digit_errors (strip (upper t)) in
  flat_map (fun pattern => flat_map int_pair (findall 2 pattern cleaned_text))
    [Pat.time_std; Pat.time_any_min; Pat.time_valid_hour].

Definition strategy1 (ocr_results : list detection) : list candidate :=
  flat_map (fun r => map (with_conf (confidence_of r)) (strategy1_pairs (text r)))
    ocr_results.

(** Strategy 2: repair of a misread hour digit and of an overflowing minute. *)
Definition repair (g : list str) : list (Z * Z) :=
  match g with
  | [first_digit; second_digit; minute_part] =>
      let corrected_hour :=
        if str_eqb first_digit (lit "6") || str_eqb first_digit (lit "7")
        then lit "1" ++ second_digit
        else if str_eqb first_digit (lit "8") || str_eqb first_digit (lit "9")
        then lit "1" ++ second_digit
        else first_digit ++ second_digit in
      match int minute_part with
      | None => []
      | Some minute_val =>
          let tail := skipn 1 minute_part in
          let corrected_minute :=
            if (60 <=? minute_val)%Z then
              if startswith_char minute_part "6" then lit "0" ++ tail
              else if startswith_char minute_part "7" then lit "1" ++ tail
              else if startswith_char minute_part "8" then lit "3" ++ tail
              else if startswith_char minute_part "9" then lit "3" ++ tail
              else minute_part
            else minute_part in
          int_pair [corrected_hour; corrected_minute]
      end
  | _ => []
  end.

Definition strategy2 (full : str) : list candidate :=
  flat_map (fun pattern => map (with_conf (7 # 10)) (flat_map repair (findall 3 pattern full)))
    [Pat.prob1; Pat.prob2; Pat.prob3].

Definition corrected_full_text (full : str) : str :=
  fix_common_digit_errors (upper full).

(** Strategy 3: the time patterns on the corrected joined text. *)
Definition strategy3 (full : str) : list candidate :=
  flat_map (fun pattern =>
      map (with_conf (9 # 10)) (flat_map int_pair (findall 2 pattern (corrected_full_text full))))
    [Pat.time_std; Pat.time_valid_hour2].

(** Strategy 4: an hour and a minute separated by whitespace. *)
Definition strategy4 (full : str) : list candidate :=
  map (with_conf (6 # 10))
    (flat_map int_pair (findall 2 Pat.separated (corrected_full_text full))).

(** Strategy 5: the substitution templates, on the uncorrected text. *)
Definition strategy5 (full : str) : list candidate :=
  flat_map (fun '(bad_pattern, fix_pattern) =>
      let fixed_text := sub bad_pattern fix_pattern full in
      if negb (str_eqb fixed_text full)
      then map (with_conf (8 # 10)) (flat_map int_pair (findall 2 Pat.time_std fixed_text))
      else [])
    Pat.bad_reading_fixes.

(** Every candidate generated, in the order the source appends them. *)
Definition raw_candidates (ocr_results : list detection) : list candidate :=
  let full := full_text ocr_results in
  strategy1 ocr_results ++ strategy2 full ++ strategy3 full ++ strategy4 full
  ++ strategy5 full.

(** [f"{h};{m:02d}"] *)
Definition time_str_of (h m : Z) : str := str_of_Z h ++ lit ";" ++ fmt_0d 2 m.

(** The validity test [9 <= h <= 15 and 0 <= m <= 59] before the append. *)
Definition gate (x : candidate) : list (str * Q) :=
  let '(h, m, c) := x in
  if valid_hm h m then [(time_str_of h m, c)] else [].

(** [found_times] *)
Definition found_times (ocr_results : list detection) : list (str * Q) :=
  flat_map gate (raw_candidates ocr_results).

Definition Qltb (a b : Q) : bool := negb (Qle_bool b a).

(** [unique_times]: one entry per [time_str], the largest confidence. *)
Definition dedup_step (unique_times : list (str * Q)) (e : str * Q) : list (str * Q) :=
  let '(time_str, confidence) := e in
  match Dict.lookup unique_times time_str with
  | None => Dict.set unique_times time_str confidence
  | Some c0 => if Qltb c0 confidence then Dict.set unique_times time_str confidence
               else unique_times
  end.

Definition dedup (found : list (str * Q)) : list (str * Q) :=
  fold_left dedup_step found [].

(** [sorted(items, key=lambda x: x[1], reverse=True)]: Python's sort is
    stable also in reverse, so it is the stable descending insertion sort. *)
Fixpoint insert_desc (x : str * Q) (l : list (str * Q)) : list (str * Q) :=
  match l with
  | [] => [x]
  | y :: l' => if Qltb (snd y) (snd x) then x :: l else y :: insert_desc x l'
  end.

Definition sort_desc (l : list (str * Q)) : list (str * Q) :=
  fold_left (fun acc x => insert_desc x acc) l [].

(** [select] is the tail of [extract_time_advanced] (lines 289-300). *)
Definition select (found : list (str * Q)) : option str :=
  match found with
  | [] => None
  | _ => match sort_desc (dedup found) with
         | (time_str, _) :: _ => Some time_str
         | [] => None
         end
  end.

Definition extract_time_advanced (ocr_results : list detection) : option str :=
  select (found_times ocr_results).

(* ------------------------------------------------------------------ *)
(** ** [find_all_details] (lines 302-330) *)

(** [full_text.upper().replace('I', '1').replace('L', '1')] *)
Definition text_for_search (ocr_results : list detection) : str :=
  Py.replace "L" "1" (Py.replace "I" "1" (upper (full_text ocr_results))).

(** [r'\b' + re.escape(company_symbol) + r'\b'] *)
Definition company_re (company_symbol : str) : regex :=
  Seq WordB (Seq (Lits company_symbol) WordB).

Definition found_in (t : str) (r : regex) : bool :=
  match search r t with Some _ => true | None => false end.

(** The company loop: the first symbol of [known_companies] found. *)
Definition find_company (ocr_results : list detection) (known_companies : list str)
  : option str :=
  find (fun company_symbol => found_in (text_for_search ocr_results) (company_re company_symbol))
    known_companies.

(** [r'(\d{3,6})[^A-Z]*(CE|PE)'] *)
Definition strike_re : regex :=
  Seq (Grp 1 (Rep is_digit 3 (Some 6)))
      (Seq (Rep (fun c => negb (is_upper c)) 0 None)
           (Grp 2 (Alt (Lits (lit "CE")) (Lits (lit "PE"))))).

(** [text_for_search.replace('O', '0').replace('o', '0').replace('Q', '0')] *)
Definition strike_text (ocr_results : list detection) : str :=
  Py.replace "Q" "0" (Py.replace "o" "0" (Py.replace "O" "0" (text_for_search ocr_results))).

(** Lot-size normalization of the captured digits [strike_raw]. *)
Definition strike_int (strike_raw : str) : option Z :=
  match int strike_raw with
  | Some n => if (4 <? length strike_raw) && endswith strike_raw (lit "00")
              then Some (n / 100)%Z else Some n
  | None => None  (* [int()] of a run of digits never fails *)
  end.

(** [(found_strike_num, found_option_type)] *)
Definition find_strike (ocr_results : list detection) : option (str * str) :=
  let corrected_text := strike_text ocr_results in
  match search strike_re corrected_text with
  | Some (_, _, cp) =>
      match strike_int (group corrected_text cp 1) with
      | Some n => Some (str_of_Z n, group corrected_text cp 2)
      | None => None
      end
  | None => None
  end.

Definition find_all_details (ocr_results : list detection) (known_companies : list str)
  : option str * option str * option str * option str :=
  let strike := find_strike ocr_results in
  (find_company ocr_results known_companies,
   option_map fst strike, option_map snd strike,
   extract_time_advanced ocr_results).

(** A detection with a text and a confidence, as in the examples. *)
Definition det (t : string) (c : option Q) : detection := mkDet [] (lit t) c.

(* ------------------------------------------------------------------ *)
(** ** Reference notions used in the statements *)

(** The keys of a list in the order of their first occurrence. *)
Definition add_key (acc : list str) (k : str) : list str :=
  if existsb (str_eqb k) acc then acc else acc ++ [k].

Definition nodup_first (ks : list str) : list str := fold_left add_key ks [].

(** The leftmost element of largest confidence. *)
Definition better (b : option (str * Q)) (x : str * Q) : option (str * Q) :=
  match b with
  | None => Some x
  | Some y => if Qltb (snd y) (snd x) then Some x else Some y
  end.

Definition best (l : list (str * Q)) : option (str * Q) := fold_left better l None.

Definition drop_conf (x : candidate) : Z * Z := let '(h, m, _) := x in (h, m).

(** The time strings [gate] records for candidates without confidences. *)
Definition gate_key (hm : Z * Z) : list str :=
  if valid_hm (fst hm) (snd hm) then [time_str_of (fst hm) (snd hm)] else [].

Definition zrange (a : Z) (n : nat) : list Z := map (fun k => (a + Z.of_nat k)%Z) (seq 0 n).

(** The literal time text [f"{hour}:{minute:02d}"]. *)
Definition colon_text (h m : Z) : str := str_of_Z h ++ lit ":" ++ fmt_0d 2 m.

(** Characters that are a key of the correction dictionary. *)
Definition mapped (c : ascii) : bool := existsb (fun e => str_eqb (fst e) [c]) corrections.

Definition char_item (c : ascii) (item : str * str) : ascii :=
  match item with
  | ([wrong], [right_]) => if Ascii.eqb c wrong then right_ else c
  | _ => c
  end.

Definition fix_char (c : ascii) : ascii := fold_left char_item corrections c.

Definition all_ascii : list ascii := map ascii_of_nat (seq 0 256).

(** The rendering of every pair of the window, checked pair by pair. *)
Definition format_ok (h m : Z) : bool :=
  let mm := fmt_0d 2 m in
  is_valid_time (time_str_of h m)
  && str_eqb (time_str_of h m) (str_of_Z h ++ lit ";" ++ mm)
  && match int (str_of_Z h) with Some v => Z.eqb v h | None => false end
  && negb (startswith_char (str_of_Z h) "0")
  && Nat.eqb (length mm) 2
  && match int mm with Some v => Z.eqb v m | None => false end.

(** The literal time text of every pair of the window, checked pair by pair. *)
Definition literal_ok (h m : Z) : bool :=
  let ds := [mkDet [] (colon_text h m) None] in
  let ks := flat_map gate_key (map drop_conf (raw_candidates ds)) in
  negb (Nat.eqb (length ks) 0)
  && forallb (fun k => str_eqb k (time_str_of h m)) ks
  && existsb (fun hm => Z.eqb (fst hm) h && Z.eqb (snd hm) m)
       (map drop_conf (raw_candidates ds)).

(** Facts about a digit character, checked over all ASCII characters. *)
Definition digit_char_ok (c : ascii) : bool :=
  negb (is_digit c)
  || (negb (is_space c) && negb (Ascii.eqb c "-") && negb (Ascii.eqb c "+")
      && Z.leb (digit_val c) 9).

(** A run of decimal digits. *)
Definition all_digits (d : str) : Prop := Forall (fun c => is_digit c = true) d.


Definition sep_char (c : ascii) : bool :=
  Ascii.eqb c ";" || Ascii.eqb c ":" || Ascii.eqb c ".".

Definition subset_cls (p q : ascii -> bool) : bool :=
  forallb (fun c => negb (p c) || q c) all_ascii.

Fixpoint needs (q : ascii -> bool) (r : regex) : bool :=
  match r with
  | Cls p => subset_cls p q
  | Seq r1 r2 => needs q r1 || needs q r2
  | Alt r1 r2 => needs q r1 && needs q r2
  | Grp _ r1 => needs q r1
  | WordB => false
  | Rep p lo _ => (0 <? lo) && subset_cls p q
  end.




(* ---------- definitions: src/Smart_OCR_Tool.py ---------- *)

Definition lower_char (c : ascii) : ascii :=
  if is_upper c then ascii_of_nat (code c + 32) else c.

(** [s.lower()] *)
Definition lower (s : str) : str := map lower_char s.

(** [s.replace(c, '')] *)
Definition remove_char (c : ascii) (s : str) : str :=
  filter (fun x => negb (Ascii.eqb x c)) s.

Fixpoint prefixb (p s : str) : bool :=
  match p, s with
  | [], _ => true
  | x :: p', y :: s' => Ascii.eqb x y && prefixb p' s'
  | _ :: _, [] => false
  end.

(** [sub in s] for strings. *)
Fixpoint in_str (sub s : str) : bool :=
  prefixb sub s || match s with [] => false | _ :: s' => in_str sub s' end.

(** [x in xs] for a list of strings. *)
Definition in_list (x : str) (xs : list str) : bool := existsb (str_eqb x) xs.

(** Python truthiness of an optional string ([None] and [''] are false). *)
Definition truthy (o : option str) : bool :=
  match o with Some (_ :: _) => true | _ => false end.

(** [get_center(bbox)] (lines 18-19); [None] is the [IndexError] of a
    box with fewer than three corners. *)
Definition get_center (bbox : list (Z * Z)) : option (Q * Q) :=
  match nth_error bbox 0, nth_error bbox 1, nth_error bbox 2 with
  | Some (x0, y0), Some (x1, _), Some (_, y2) =>
      Some (((inject_Z x0 + inject_Z x1) / 2)%Q, ((inject_Z y0 + inject_Z y2) / 2)%Q)
  | _, _, _ => None
  end.

(** [math.sqrt(dx**2 + dy**2) < min_dist]: the square root is increasing, so
    the distances are compared through their squares; [None] is
    [float('inf')]. *)
Definition sq_dist (a b : Q * Q) : Q :=
  ((fst b - fst a) * (fst b - fst a) + (snd b - snd a) * (snd b - snd a))%Q.

Definition closer (d : Q) (min_dist : option Q) : bool :=
  match min_dist with None => true | Some md => Qltb d md end.

(** [text_center[1] > anchor_location[1] and abs(text_center[0] - anchor_location[0]) < 75] *)
Definition below_near (anchor text_center : Q * Q) : bool :=
  Qltb (snd anchor) (snd text_center) && Qltb (Qabs (fst text_center - fst anchor)) 75.

(** The loop [for (bbox, text, prob) in all_results]: a result without
    its third component ([conf = None]) does not unpack into three names,
    a [ValueError]; a box without a center is the [IndexError] of
    [get_center]. Both are the [None] of the result. *)
Fixpoint find_text_below_loop (anchor_location : Q * Q) (rs : list detection)
    (min_dist : option Q) (found_text : option str) : option (option str) :=
  match rs with
  | [] => Some found_text
  | r :: rs' =>
      match conf r with
      | None => None
      | Some _ =>
          match get_center (bbox r) with
          | None => None
          | Some text_center =>
              if below_near anchor_location text_center then
                let dist := sq_dist anchor_location text_center in
                if closer dist min_dist
                then find_text_below_loop anchor_location rs' (Some dist) (Some (strip (text r)))
                else find_text_below_loop anchor_location rs' min_dist found_text
              else find_text_below_loop anchor_location rs' min_dist found_text
          end
      end
  end.

(** [find_text_below(anchor_location, all_results)] (lines 21-31); the outer
    [None] is an exception. *)
Definition find_text_below (anchor_location : Q * Q) (all_results : list detection)
  : option (option str) :=
  find_text_below_loop anchor_location all_results None None.

(** [text.lower().replace(' ','')] *)
Definition clean_text (t : str) : str := remove_char " " (lower t).

(** The anchor loop (lines 37-40): the last ['symbol'] and the last
    ['strike1'] detection win. [None] is an exception: the [ValueError] of
    unpacking a result without its third component into
    [(bbox, text, prob)], or the [IndexError] of [get_center]. *)
Fixpoint find_anchors (rs : list detection) (symbol_anchor_loc strike1_anchor_loc : option (Q * Q))
  : option (option (Q * Q) * option (Q * Q)) :=
  match rs with
  | [] => Some (symbol_anchor_loc, strike1_anchor_loc)
  | r :: rs' =>
      match conf r with
      | None => None
      | Some _ =>
          let ct := clean_text (text r) in
          let sym :=
            if in_str (lit "symbol") ct
            then option_map Some (get_center (bbox r)) else Some symbol_anchor_loc in
          match sym with
          | None => None
          | Some sym' =>
              let st :=
                if in_str (lit "strike1") ct
                then option_map Some (get_center (bbox r)) else Some strike1_anchor_loc in
              match st with
              | None => None
              | Some st' => find_anchors rs' sym' st'
              end
          end
      end
  end.

(** [" ".join([res[1].upper() for res in ocr_results])] *)
Definition all_text (ocr_results : list detection) : str :=
  join (lit " ") (map (fun r => upper (text r)) ocr_results).

(** The company search (lines 42-53). *)
Definition hybrid_company (ocr_results : list detection) (known_companies : list str)
    (symbol_anchor_loc : option (Q * Q)) : option (option str) :=
  let positional :=
    match symbol_anchor_loc with
    | None => Some None
    | Some loc =>
        match find_text_below loc ocr_results with
        | None => None
        | Some candidate_company =>
            match candidate_company with
            | Some cc =>
                if truthy candidate_company && in_list (upper cc) known_companies
                then Some (Some (upper cc)) else Some None
            | None => Some None
            end
        end
    end in
  match positional with
  | None => None
  | Some found_company =>
      if negb (truthy found_company) then
        match find (fun company => in_str company (all_text ocr_results)) known_companies with
        | Some company => Some (Some company)
        | None => Some found_company
        end
      else Some found_company
  end.

(** [r'\d{1,2}[:;.]\d{2}'] *)
Definition hybrid_time_re : regex :=
  Seq (Rep is_digit 1 (Some 2)) (Seq Pat.SEP (Rep is_digit 2 (Some 2))).

(** The time loop (lines 60-65); the anchor loop has already unpacked
    every result of the same list. *)
Fixpoint hybrid_time (rs : list detection) : option str :=
  match rs with
  | [] => None
  | r :: rs' =>
      match search hybrid_time_re (text r) with
      | Some (i, j, _) =>
          Some (Py.replace "." ";" (Py.replace ":" ";" (slice (text r) i j)))
      | None => hybrid_time rs'
      end
  end.

(** [find_details_by_hybrid_anchor(ocr_results, known_companies)] (lines
    33-67): [(found_company, found_strike_raw, found_time)]; [None] is an
    exception raised on a result without a confidence or a box with fewer
    than three corners. *)
Definition find_details_by_hybrid_anchor (ocr_results : list detection)
    (known_companies : list str) : option (option str * option str * option str) :=
  match find_anchors ocr_results None None with
  | None => None
  | Some (symbol_anchor_loc, strike1_anchor_loc) =>
      match hybrid_company ocr_results known_companies symbol_anchor_loc with
      | None => None
      | Some found_company =>
          let strike :=
            match strike1_anchor_loc with
            | Some loc => find_text_below loc ocr_results
            | None => Some None
            end in
          match strike with
          | None => None
          | Some found_strike_raw =>
              Some (found_company, found_strike_raw, hybrid_time ocr_results)
          end
      end
  end.

(** [s.replace(old, new)] for a nonempty [old]: occurrences are replaced
    left to right without overlapping; [fuel] is the length of [s]. *)
Fixpoint repl (fuel : nat) (old new s : str) : str :=
  match fuel with
  | O => s
  | S f =>
      match s with
      | [] => []
      | c :: s' =>
          if prefixb old s then new ++ repl f old new (skipn (length old) s)
          else c :: repl f old new s'
      end
  end.

Definition replace_str (old new s : str) : str := repl (length s) old new s.

(** [r'\d+'] *)
Definition digits_re : regex := Rep is_digit 1 None.

(** [strike_raw.upper().replace('.00','').replace('O','0')] *)
Definition strike_str_cleaned (strike_raw : str) : str :=
  Py.replace "O" "0" (replace_str (lit ".00") [] (upper strike_raw)).

(** [(strike_num, option_type)]; [None] is the [AttributeError] of
    [re.search(r'\d+', ...).group(0)] when there is no digit. *)
Definition strike_fields (strike_raw : str) : option (str * str) :=
  let cleaned := strike_str_cleaned strike_raw in
  match search digits_re cleaned with
  | Some (i, j, _) =>
      Some (slice cleaned i j, if in_str (lit "CE") cleaned then lit "CE" else lit "PE")
  | None => None
  end.

(** The value of an optional string inside an f-string; only used where
    the code has checked it is truthy. *)
Definition sv (o : option str) : str := match o with Some s => s | None => [] end.

(** [f"{fileDate} {company} {strike_num} {option_type} {time_str}.png"] *)
Definition new_filename_of (fileDate company strike_num option_type time_str : str) : str :=
  fileDate ++ " "%char :: company ++ " "%char :: strike_num ++ " "%char :: option_type
  ++ " "%char :: time_str ++ lit ".png".



(* ---------- definitions: src/screenshot_processor.py, move_file_threaded ---------- *)

(** The part of the file system the function touches: regular files
    (path and content) and directories, by path. *)
Record fs := mkFs { fs_files : list (str * str); fs_dirs : list str }.

Definition del (d : list (str * str)) (k : str) : list (str * str) :=
  filter (fun e => negb (str_eqb (fst e) k)) d.

(** [os.path.exists(p)] *)
Definition path_exists (s : fs) (p : str) : bool :=
  match Dict.lookup (fs_files s) p with Some _ => true | None => in_list p (fs_dirs s) end.

(** The proper ancestors of a path: its prefixes ending before a ['/']. *)
Fixpoint ancestors (acc : str) (p : str) : list str :=
  match p with
  | [] => []
  | c :: p' =>
      if Ascii.eqb c "/" then
        match acc with
        | [] => ancestors (c :: acc) p'
        | _ => rev acc :: ancestors (c :: acc) p'
        end
      else ancestors (c :: acc) p'
  end.

Fixpoint dropwhile (f : ascii -> bool) (s : str) : str :=
  match s with
  | c :: s' => if f c then dropwhile f s' else s
  | [] => []
  end.

Definition is_slash (c : ascii) : bool := Ascii.eqb c "/".

(** [os.path.dirname(p)] (posixpath): the text up to the last ['/'], without
    its trailing slashes unless it is made of slashes only. *)
Definition dirname (p : str) : str :=
  let head := rev (dropwhile (fun c => negb (is_slash c)) (rev p)) in
  if forallb is_slash head then head else rev (dropwhile is_slash (rev head)).

(** A directory path that exists: the current directory [''], the root,
    or a directory of [fs_dirs]. *)
Definition dir_exists (s : fs) (d : str) : bool :=
  forallb is_slash d || in_list d (fs_dirs s).

(** [os.makedirs(name)]: [FileExistsError] when [name] exists, an error
    when an ancestor is a regular file; otherwise [name] and its missing
    ancestors become directories. *)
Definition os_makedirs (s : fs) (name : str) : option fs :=
  if path_exists s name then None
  else if existsb (fun a => match Dict.lookup (fs_files s) a with Some _ => true | None => false end)
                  (ancestors [] name) then None
  else Some (mkFs (fs_files s) (name :: ancestors [] name ++ fs_dirs s)).

(** [os.remove(path)]: only a regular file can be removed. *)
Definition os_remove (s : fs) (path : str) : option fs :=
  match Dict.lookup (fs_files s) path with
  | Some _ => Some (mkFs (del (fs_files s) path) (fs_dirs s))
  | None => None
  end.

(** [os.rename(src, dst)] of a regular file (POSIX): [dst] must not be a
    directory and its directory must exist; an existing file [dst] is
    replaced. *)
Definition os_rename (s : fs) (src dst : str) : option fs :=
  match Dict.lookup (fs_files s) src with
  | None => None
  | Some content =>
      if in_list dst (fs_dirs s) then None
      else if dir_exists s (dirname dst)
           then Some (mkFs (Dict.set (del (fs_files s) src) dst content) (fs_dirs s))
           else None
  end.

(** [os.path.join(a, b)] (POSIX). *)
Definition path_join (a b : str) : str :=
  if startswith_char b "/" then b
  else match a with
       | [] => b
       | _ => if endswith a (lit "/") then a ++ b else a ++ "/"%char :: b
       end.

(** The entries of [file_info] the function reads. *)
Record file_info := mkInfo {
  fi_filename : str;
  fi_company : option str;
  fi_strike_num : option str;
  fi_option_type : option str;
  fi_time_str : option str
}.

Inductive move_result :=
| Moved (folder_name new_filename : str)
| KeptNewer (folder_name new_filename : str)
| Deleted (fail_reason : list str) (filename : str)
| DeleteError (filename : str)
| MoveError (filename : str).

(** [f"{strike_num} {option_type} {company}"] *)
Definition folder_name_of (company strike_num option_type : str) : str :=
  strike_num ++ " "%char :: option_type ++ " "%char :: company.

(** The list [fail_reason] of the [else] branch. *)
Definition fail_reason_of (company strike_num option_type time_str : option str) : list str :=
  (if truthy company then [] else [lit "Company"]) ++
  (if negb (truthy strike_num) || negb (truthy option_type) then [lit "Strike/Option"] else []) ++
  (if negb (truthy time_str) then [lit "Time (not found)"]
   else if negb (is_valid_time (sv time_str))
   then [lit "Time (invalid value: '" ++ sv time_str ++ lit "')"] else []).

(** [move_file_threaded(file_info, fileDate)] (lines 439-490), one call
    run on its own; the [threading.Lock()] created inside the call is a
    new lock no other call holds, so it adds no step here. *)
Definition move_file_threaded (file_info : file_info) (fileDate : str) (s : fs)
  : fs * move_result :=
  let filename := fi_filename file_info in
  let company := fi_company file_info in
  let strike_num := fi_strike_num file_info in
  let option_type := fi_option_type file_info in
  let time_str := fi_time_str file_info in
  if truthy company && truthy strike_num && truthy option_type && truthy time_str
     && is_valid_time (sv time_str) then
    let folder_name := folder_name_of (sv company) (sv strike_num) (sv option_type) in
    match (if negb (path_exists s folder_name) then os_makedirs s folder_name else Some s) with
    | None => (s, MoveError filename)
    | Some s1 =>
        let new_filename :=
          new_filename_of fileDate (sv company) (sv strike_num) (sv option_type) (sv time_str) in
        let full_path := path_join folder_name new_filename in
        if negb (path_exists s1 full_path) then
          match os_rename s1 filename full_path with
          | Some s2 => (s2, Moved folder_name new_filename)
          | None => (s1, MoveError filename)
          end
        else
          match os_remove s1 full_path with
          | None => (s1, MoveError filename)
          | Some s2 =>
              match os_rename s2 filename full_path with
              | Some s3 => (s3, KeptNewer folder_name new_filename)
              | None => (s2, MoveError filename)
              end
          end
    end
  else
    match os_remove s filename with
    | Some s' => (s', Deleted (fail_reason_of company strike_num option_type time_str) filename)
    | None => (s, DeleteError filename)
    end.

(** The entries of the dictionary [process_single_screenshot] returns on
    success, from [find_all_details] (lines 382-395). *)
Definition info_of_details (filename : str)
    (details : option str * option str * option str * option str) : file_info :=
  let '(company, strike_num, option_type, time_str) := details in
  mkInfo filename company strike_num option_type time_str.

(* main (line 507; line 83 of src/Smart_OCR_Tool.py): the files to process *)

Fixpoint str_leb (a b : str) : bool :=
  match a, b with
  | [], _ => true
  | _ :: _, [] => false
  | x :: a', y :: b' =>
      if (nat_of_ascii x <? nat_of_ascii y) then true
      else if (nat_of_ascii y <? nat_of_ascii x) then false
      else str_leb a' b'
  end.

Fixpoint insert_sorted (x : str) (l : list str) : list str :=
  match l with
  | [] => [x]
  | y :: l' => if str_leb x y then x :: l else y :: insert_sorted x l'
  end.

(** [sorted(...)] of strings (by code points). *)
Definition sorted (l : list str) : list str := fold_right insert_sorted [] l.

(** [f.lower().endswith(('.png', '.jpg', '.jpeg')) and f.lower().startswith('screenshot')] *)
Definition processor_accepts (f : str) : bool :=
  (endswith (lower f) (lit ".png") || endswith (lower f) (lit ".jpg")
   || endswith (lower f) (lit ".jpeg"))
  && prefixb (lit "screenshot") (lower f).

(** [files_to_process] of [main] in src/screenshot_processor.py. *)
Definition processor_files (listing : list str) : list str :=
  sorted (filter processor_accepts listing).

(** [f.lower().endswith('.png') and f.startswith('Screenshot')] *)
Definition smart_accepts (f : str) : bool :=
  endswith (lower f) (lit ".png") && prefixb (lit "Screenshot") f.

(** [files_to_process] of [main] in src/Smart_OCR_Tool.py. *)
Definition smart_files (listing : list str) : list str :=
  sorted (filter smart_accepts listing).

Definition BATCH_SIZE : nat := 4.

(** [range(start, stop, step)] for [step > 0]. *)
Definition py_range (start stop step : nat) : list nat :=
  map (fun k => start + k * step) (seq 0 ((stop - start + step - 1) / step)).

(** [[files_to_process[i:i + BATCH_SIZE] for i in range(0, len(files_to_process), BATCH_SIZE)]] *)
Definition batches (files_to_process : list str) : list (list str) :=
  map (fun i => firstn BATCH_SIZE (skipn i files_to_process))
      (py_range 0 (length files_to_process) BATCH_SIZE).

Definition LF : ascii := "010"%char.
Definition CR : ascii := "013"%char.

(** Reading in text mode with universal newlines: ['\r\n'] and ['\r']
    become ['\n']. *)
Fixpoint universal_newlines (s : str) : str :=
  match s with
  | c :: s' =>
      if Ascii.eqb c CR then
        match s' with
        | d :: s'' => if Ascii.eqb d LF then LF :: universal_newlines s'' else LF :: universal_newlines s'
        | [] => [LF]
        end
      else c :: universal_newlines s'
  | [] => []
  end.

(** [for line in f]: the lines, each with its ['\n'] except a last one
    without it; [cur] is the current line, reversed. *)
Fixpoint lines_of (cur : str) (s : str) : list str :=
  match s with
  | [] => match cur with [] => [] | _ => [rev cur] end
  | c :: s' => if Ascii.eqb c LF then rev (LF :: cur) :: lines_of [] s' else lines_of (c :: cur) s'
  end.

(** [[line.strip().upper() for line in f if line.strip()]] on the content
    of [companies.txt]. *)
Definition load_companies (content : str) : list str :=
  map (fun line => upper (strip line))
      (filter (fun line => match strip line with [] => false | _ => true end)
              (lines_of [] (universal_newlines content))).

(* ------------------------------------------------------------------ *)
(** * Proofs *)

(** ** Strings and confidences *)

Lemma str_eqb_eq (a b : str) : str_eqb a b = true <-> a = b.
Proof.
  revert b; induction a as [|x a IH]; intros [|y b]; simpl; try (split; congruence).
  rewrite andb_true_iff, IH, Ascii.eqb_eq. split.
  - intros [-> ->]; reflexivity.
  - intros H; inversion H; auto.
Qed.

Lemma str_eqb_refl (a : str) : str_eqb a a = true.
Proof. apply str_eqb_eq; reflexivity. Qed.

Lemma str_eqb_false (a b : str) : str_eqb a b = false <-> a <> b.
Proof.
  rewrite <- str_eqb_eq. destruct (str_eqb a b); split; congruence.
Qed.

Lemma Qltb_iff (a b : Q) : Qltb a b = true <-> (a < b)%Q.
Proof.
  unfold Qltb. rewrite negb_true_iff. split.
  - intros H. apply Qnot_le_lt. intros H'. apply Qle_bool_iff in H'. congruence.
  - intros H. destruct (Qle_bool b a) eqn:E; auto.
    apply Qle_bool_iff in E. exfalso. apply (Qlt_not_le a b); auto.
Qed.

Lemma Qltb_false (a b : Q) : Qltb a b = false -> (b <= a)%Q.
Proof.
  unfold Qltb. rewrite negb_false_iff. apply Qle_bool_iff.
Qed.

(** ** The [dict] of [unique_times] *)

Module DictFacts.

Lemma existsb_str_In (k : str) (l : list str) : existsb (str_eqb k) l = true <-> In k l.
Proof.
  rewrite existsb_exists. split.
  - intros [x [Hx E]]. apply str_eqb_eq in E. subst. exact Hx.
  - intros H. exists k. split; auto using str_eqb_refl.
Qed.

Lemma lookup_None {V} (d : list (str * V)) k :
  Dict.lookup d k = None <-> ~ In k (map fst d).
Proof.
  induction d as [|[k' v'] d IH]; simpl; [tauto|].
  destruct (str_eqb k' k) eqn:E.
  - apply str_eqb_eq in E. subst. split; [discriminate|tauto].
  - apply str_eqb_false in E. rewrite IH. intuition.
Qed.

Lemma lookup_In {V} (d : list (str * V)) k v :
  Dict.lookup d k = Some v -> In (k, v) d.
Proof.
  induction d as [|[k' v'] d IH]; simpl; [discriminate|].
  destruct (str_eqb k' k) eqn:E.
  - apply str_eqb_eq in E. intros H; inversion H; subst. auto.
  - auto.
Qed.

Lemma In_lookup {V} (d : list (str * V)) k v :
  NoDup (map fst d) -> In (k, v) d -> Dict.lookup d k = Some v.
Proof.
  induction d as [|[k' v'] d IH]; simpl; [tauto|].
  intros ND H. inversion ND as [|? ? Hn ND']; subst.
  destruct (str_eqb k' k) eqn:E.
  - apply str_eqb_eq in E. subst. destruct H as [H|H].
    + inversion H; auto.
    + exfalso. apply Hn. apply (in_map fst) in H. exact H.
  - apply str_eqb_false in E. destruct H as [H|H]; [inversion H; congruence|auto].
Qed.

Lemma set_keys_present {V} (d : list (str * V)) k v :
  In k (map fst d) -> map fst (Dict.set d k v) = map fst d.
Proof.
  induction d as [|[k' v'] d IH]; simpl; [tauto|].
  destruct (str_eqb k' k) eqn:E; simpl.
  - reflexivity.
  - apply str_eqb_false in E. intros [H|H]; [congruence|]. rewrite IH; auto.
Qed.

Lemma set_keys_absent {V} (d : list (str * V)) k v :
  ~ In k (map fst d) -> map fst (Dict.set d k v) = map fst d ++ [k].
Proof.
  induction d as [|[k' v'] d IH]; simpl; [reflexivity|].
  intros H. destruct (str_eqb k' k) eqn:E.
  - apply str_eqb_eq in E. tauto.
  - simpl. rewrite IH; auto.
Qed.

Lemma lookup_set_same {V} (d : list (str * V)) k v : Dict.lookup (Dict.set d k v) k = Some v.
Proof.
  induction d as [|[k' v'] d IH]; simpl.
  - rewrite str_eqb_refl. reflexivity.
  - destruct (str_eqb k' k) eqn:E; simpl; rewrite E; auto.
Qed.

Lemma lookup_set_other {V} (d : list (str * V)) k k' v :
  k <> k' -> Dict.lookup (Dict.set d k v) k' = Dict.lookup d k'.
Proof.
  intros Hne. induction d as [|[k0 v0] d IH]; simpl.
  - destruct (str_eqb k k') eqn:E; auto. apply str_eqb_eq in E. congruence.
  - destruct (str_eqb k0 k) eqn:E; simpl.
    + apply str_eqb_eq in E. subst.
      destruct (str_eqb k k') eqn:E'; auto. apply str_eqb_eq in E'. congruence.
    + destruct (str_eqb k0 k'); auto.
Qed.

Lemma nodup_first_app (ks : list str) k :
  nodup_first (ks ++ [k]) = add_key (nodup_first ks) k.
Proof. unfold nodup_first. rewrite fold_left_app. reflexivity. Qed.

Lemma In_nodup_first (ks : list str) k : In k (nodup_first ks) <-> In k ks.
Proof.
  induction ks as [|x ks IH] using rev_ind; [simpl; tauto|].
  rewrite nodup_first_app, in_app_iff. unfold add_key.
  destruct (existsb (str_eqb x) (nodup_first ks)) eqn:E.
  - apply existsb_str_In in E. rewrite IH. simpl. split; [tauto|].
    intros [H|[H|[]]]; subst; auto. apply IH; auto.
  - rewrite in_app_iff, IH. tauto.
Qed.

Lemma NoDup_nodup_first (ks : list str) : NoDup (nodup_first ks).
Proof.
  induction ks as [|x ks IH] using rev_ind; [constructor|].
  rewrite nodup_first_app. unfold add_key.
  destruct (existsb (str_eqb x) (nodup_first ks)) eqn:E; auto.
  apply Permutation.Permutation_NoDup with (l := x :: nodup_first ks).
  - apply Permutation.Permutation_cons_append.
  - constructor; auto. intros H. apply existsb_str_In in H. congruence.
Qed.

End DictFacts.

(** ** Deduplication and ranking of [found_times] *)

Module Ranking.
Import DictFacts.

Definition dedup_inv (D P : list (str * Q)) : Prop :=
  map fst D = nodup_first (map fst P) /\
  forall k v, Dict.lookup D k = Some v ->
    In (k, v) P /\ forall c', In (k, c') P -> (c' <= v)%Q.

Lemma dedup_snoc (found : list (str * Q)) e :
  dedup (found ++ [e]) = dedup_step (dedup found) e.
Proof. unfold dedup. rewrite fold_left_app. reflexivity. Qed.

Lemma keys_inv D P k : dedup_inv D P -> (In k (map fst D) <-> In k (map fst P)).
Proof. intros [H1 _]. rewrite H1. apply In_nodup_first. Qed.

Lemma dedup_invariant (found : list (str * Q)) : dedup_inv (dedup found) found.
Proof.
  induction found as [|[k c] P IH] using rev_ind.
  - split; [reflexivity|]. simpl. discriminate.
  - rewrite dedup_snoc. set (D := dedup P) in *.
    assert (Hk := keys_inv D P k IH). destruct IH as [I1 I2].
    assert (Hmap : map fst (P ++ [(k, c)]) = map fst P ++ [k])
      by (rewrite map_app; reflexivity).
    (* lookups of other keys are untouched by the new element *)
    assert (Hother : forall D', (forall k', k <> k' -> Dict.lookup D' k' = Dict.lookup D k') ->
              forall k' v, k <> k' -> Dict.lookup D' k' = Some v ->
              In (k', v) (P ++ [(k, c)]) /\
              forall c', In (k', c') (P ++ [(k, c)]) -> (c' <= v)%Q).
    { intros D' HD k' v Hne HL. rewrite HD in HL by exact Hne.
      destruct (I2 k' v HL) as [Hin Hmax]. split.
      - apply in_app_iff; auto.
      - intros c' Hc'. apply in_app_iff in Hc'. destruct Hc' as [Hc'|[Hc'|[]]].
        + auto.
        + inversion Hc'; congruence. }
    unfold dedup_step. destruct (Dict.lookup D k) as [c0|] eqn:L.
    + assert (Hin : In k (map fst D)) by exact (in_map fst _ _ (lookup_In _ _ _ L)).
      assert (Hkeys : nodup_first (map fst (P ++ [(k, c)])) = nodup_first (map fst P)).
      { rewrite Hmap, nodup_first_app. unfold add_key.
        rewrite <- I1. apply existsb_str_In in Hin. rewrite Hin. reflexivity. }
      destruct (I2 k c0 L) as [Hin0 Hmax0].
      destruct (Qltb c0 c) eqn:Qc.
      * apply Qltb_iff in Qc. split.
        -- rewrite set_keys_present by exact Hin. rewrite Hkeys. exact I1.
        -- intros k' v HL. destruct (str_eqb k k') eqn:E.
           ++ apply str_eqb_eq in E. subst k'.
              rewrite lookup_set_same in HL. inversion HL; subst v. split.
              ** apply in_app_iff. right. left. reflexivity.
              ** intros c' Hc'. apply in_app_iff in Hc'. destruct Hc' as [Hc'|[Hc'|[]]].
                 --- apply Qlt_le_weak. apply Qle_lt_trans with c0; auto.
                 --- inversion Hc'. apply Qle_refl.
           ++ apply str_eqb_false in E. apply (Hother (Dict.set D k c)); auto.
              intros k'' Hne. apply lookup_set_other; auto.
      * apply Qltb_false in Qc. split.
        -- rewrite Hkeys. exact I1.
        -- intros k' v HL. destruct (str_eqb k k') eqn:E.
           ++ apply str_eqb_eq in E. subst k'. rewrite L in HL. inversion HL; subst v. split.
              ** apply in_app_iff; auto.
              ** intros c' Hc'. apply in_app_iff in Hc'. destruct Hc' as [Hc'|[Hc'|[]]].
                 --- auto.
                 --- inversion Hc'; subst. exact Qc.
           ++ apply str_eqb_false in E. apply (Hother D); auto.
    + assert (Hnin : ~ In k (map fst D)) by (apply lookup_None; exact L).
      split.
      * rewrite set_keys_absent by exact Hnin. rewrite Hmap, nodup_first_app, <- I1.
        unfold add_key. destruct (existsb (str_eqb k) (map fst D)) eqn:E; [|reflexivity].
        apply existsb_str_In in E. contradiction.
      * intros k' v HL. destruct (str_eqb k k') eqn:E.
        -- apply str_eqb_eq in E. subst k'.
           rewrite lookup_set_same in HL. inversion HL; subst v. split.
           ++ apply in_app_iff. right. left. reflexivity.
           ++ intros c' Hc'. apply in_app_iff in Hc'. destruct Hc' as [Hc'|[Hc'|[]]].
              ** exfalso. apply Hnin. apply Hk. exact (in_map fst _ _ Hc').
              ** inversion Hc'. apply Qle_refl.
        -- apply str_eqb_false in E. apply (Hother (Dict.set D k c)); auto.
           intros k'' Hne. apply lookup_set_other; auto.
Qed.


Lemma dedup_facts (found : list (str * Q)) :
  map fst (dedup found) = nodup_first (map fst found) /\
  NoDup (map fst (dedup found)) /\
  forall k v, In (k, v) (dedup found) ->
    In (k, v) found /\ forall c', In (k, c') found -> (c' <= v)%Q.
Proof.
  destruct (dedup_invariant found) as [I1 I2].
  assert (ND : NoDup (map fst (dedup found))) by (rewrite I1; apply NoDup_nodup_first).
  split; [exact I1|]. split; [exact ND|].
  intros k v H. apply (I2 k v). apply In_lookup; auto.
Qed.

Lemma dedup_nonempty (found : list (str * Q)) : found <> [] -> dedup found <> [].
Proof.
  intros Hne HD. destruct found as [|[k c] found]; [congruence|].
  destruct (dedup_facts ((k, c) :: found)) as [H1 _].
  assert (Hk : In k (nodup_first (map fst ((k, c) :: found))))
    by (apply In_nodup_first; left; reflexivity).
  rewrite <- H1, HD in Hk. destruct Hk.
Qed.

Lemma hd_insert_desc x acc : hd_error (insert_desc x acc) = better (hd_error acc) x.
Proof.
  destruct acc as [|y acc]; simpl; [reflexivity|].
  destruct (Qltb (snd y) (snd x)); reflexivity.
Qed.

Lemma hd_sort_desc (l : list (str * Q)) : hd_error (sort_desc l) = best l.
Proof.
  unfold sort_desc, best.
  change (@None (str * Q)) with (hd_error (@nil (str * Q))).
  generalize (@nil (str * Q)) as acc.
  induction l as [|x l IH]; intros acc; simpl; [reflexivity|].
  rewrite IH, hd_insert_desc. reflexivity.
Qed.

Lemma better_some_acc (l : list (str * Q)) y z :
  fold_left better l (Some y) = Some z ->
  (z = y /\ forall x, In x l -> (snd x <= snd y)%Q) \/
  (exists pre post, l = pre ++ z :: post /\ (snd y < snd z)%Q /\
     (forall x, In x pre -> (snd x < snd z)%Q) /\
     (forall x, In x post -> (snd x <= snd z)%Q)).
Proof.
  revert y. induction l as [|x l IH]; intros y H; simpl in H.
  - inversion H; subst. left. split; auto. intros x [].
  - destruct (Qltb (snd y) (snd x)) eqn:E.
    + apply Qltb_iff in E. right.
      destruct (IH x H) as [[-> Hall]|[pre [post [-> [Hxz [Hpre Hpost]]]]]].
      * exists [], l. repeat split; auto. intros w [].
      * exists (x :: pre), post. repeat split; auto.
        -- apply Qlt_trans with (snd x); auto.
        -- intros w [<-|Hw]; auto.
    + apply Qltb_false in E.
      destruct (IH y H) as [[-> Hall]|[pre [post [-> [Hyz [Hpre Hpost]]]]]].
      * left. split; auto. intros w [<-|Hw]; auto.
      * right. exists (x :: pre), post. repeat split; auto.
        intros w [<-|Hw]; auto. apply Qle_lt_trans with (snd y); auto.
Qed.

(** [best] is the leftmost element of largest confidence. *)
Lemma best_spec (l : list (str * Q)) z :
  best l = Some z ->
  exists pre post, l = pre ++ z :: post /\
    (forall x, In x pre -> (snd x < snd z)%Q) /\
    (forall x, In x post -> (snd x <= snd z)%Q).
Proof.
  unfold best. destruct l as [|x l]; simpl; [discriminate|].
  intros H. destruct (better_some_acc l x z H) as [[-> Hall]|[pre [post [-> [Hxz [Hpre Hpost]]]]]].
  - exists [], l. repeat split; auto. intros w [].
  - exists (x :: pre), post. repeat split; auto. intros w [<-|Hw]; auto.
Qed.

Lemma best_nonempty (l : list (str * Q)) : l <> [] -> best l <> None.
Proof.
  unfold best. destruct l as [|x l]; [congruence|]. intros _. simpl.
  generalize x. induction l as [|y l IH]; intros w; simpl; [discriminate|].
  destruct (Qltb (snd w) (snd y)); apply IH.
Qed.

Lemma select_some (found : list (str * Q)) s :
  select found = Some s ->
  exists pre c post, dedup found = pre ++ (s, c) :: post /\
    (forall x, In x pre -> (snd x < c)%Q) /\
    (forall x, In x post -> (snd x <= c)%Q).
Proof.
  unfold select. destruct found as [|e found']; [discriminate|].
  set (found := e :: found').
  destruct (sort_desc (dedup found)) as [|[t c] rest] eqn:E; [discriminate|].
  intros H. inversion H; subst t.
  assert (Hb : best (dedup found) = Some (s, c)) by (rewrite <- hd_sort_desc, E; reflexivity).
  destruct (best_spec _ _ Hb) as [pre [post [Hd [Hpre Hpost]]]].
  exists pre, c, post. auto.
Qed.

Lemma select_none (found : list (str * Q)) : select found = None <-> found = [].
Proof.
  split; [|intros ->; reflexivity].
  unfold select. destruct found as [|e found']; [reflexivity|].
  set (found := e :: found').
  destruct (sort_desc (dedup found)) as [|[t c] rest] eqn:E; [|discriminate].
  intros _. exfalso.
  assert (Hne : dedup found <> []) by (apply dedup_nonempty; discriminate).
  apply (best_nonempty _ Hne). rewrite <- hd_sort_desc, E. reflexivity.
Qed.

Lemma select_in (found : list (str * Q)) s :
  select found = Some s -> In s (map fst found).
Proof.
  intros H. destruct (select_some found s H) as [pre [c [post [Hd _]]]].
  destruct (dedup_facts found) as [_ [_ H3]].
  assert (Hin : In (s, c) (dedup found)) by (rewrite Hd; apply in_app_iff; right; left; reflexivity).
  destruct (H3 s c Hin) as [Hf _]. exact (in_map fst _ _ Hf).
Qed.

Lemma select_same (found : list (str * Q)) s :
  found <> [] -> (forall x, In x found -> fst x = s) -> select found = Some s.
Proof.
  intros Hne Hall. destruct (select found) as [s'|] eqn:E.
  - apply select_in in E. apply in_map_iff in E. destruct E as [x [<- Hx]].
    rewrite (Hall x Hx). reflexivity.
  - apply select_none in E. contradiction.
Qed.

End Ranking.

(** ** The candidate pool *)

Module Pool.
Import Ranking.

Lemma valid_hm_iff h m : valid_hm h m = true <-> (9 <= h <= 15 /\ 0 <= m <= 59)%Z.
Proof. unfold valid_hm. rewrite !andb_true_iff, !Z.leb_le. tauto. Qed.

Lemma found_times_gated ds x :
  In x (found_times ds) ->
  exists h m c, In (h, m, c) (raw_candidates ds) /\ x = (time_str_of h m, c) /\
    valid_hm h m = true.
Proof.
  unfold found_times. rewrite in_flat_map. intros [[[h m] c] [Hin Hx]].
  unfold gate in Hx. destruct (valid_hm h m) eqn:V; [|destruct Hx].
  destruct Hx as [<-|[]]. exists h, m, c. auto.
Qed.

Lemma keys_gate (l : list candidate) :
  map fst (flat_map gate l) = flat_map gate_key (map drop_conf l).
Proof.
  induction l as [|[[h m] c] l IH]; [reflexivity|].
  change (map fst (gate (h, m, c) ++ flat_map gate l)
          = gate_key (h, m) ++ flat_map gate_key (map drop_conf l)).
  rewrite map_app, IH. unfold gate, gate_key. simpl.
  destruct (valid_hm h m); reflexivity.
Qed.

Lemma drop_with_conf c (l : list (Z * Z)) : map drop_conf (map (with_conf c) l) = l.
Proof. induction l as [|[h m] l IH]; simpl; [reflexivity|]. rewrite IH. reflexivity. Qed.

(** Only the text of a single detection matters for the generated pairs. *)
Lemma raw_single_indep bb t oc :
  map drop_conf (raw_candidates [mkDet bb t oc])
  = map drop_conf (raw_candidates [mkDet [] t None]).
Proof.
  assert (Hf : forall bb' oc', full_text [mkDet bb' t oc'] = t) by reflexivity.
  assert (H1 : forall bb' oc', strategy1 [mkDet bb' t oc']
            = map (with_conf (confidence_of (mkDet bb' t oc'))) (strategy1_pairs t) ++ [])
    by reflexivity.
  unfold raw_candidates. cbv zeta. rewrite !Hf, !H1, !map_app, !drop_with_conf.
  reflexivity.
Qed.

Lemma In_zrange a n x : (a <= x < a + Z.of_nat n)%Z -> In x (zrange a n).
Proof.
  intros H. unfold zrange. apply in_map_iff. exists (Z.to_nat (x - a)). split.
  - rewrite Z2Nat.id; lia.
  - apply in_seq. lia.
Qed.

Lemma window_cases (P : Z -> Z -> bool) h m :
  forallb (fun h => forallb (fun m => P h m) (zrange 0 60)) (zrange 9 7) = true ->
  (9 <= h <= 15)%Z -> (0 <= m <= 59)%Z -> P h m = true.
Proof.
  intros Hall Hh Hm. rewrite forallb_forall in Hall.
  specialize (Hall h (In_zrange 9 7 h ltac:(simpl; lia))).
  rewrite forallb_forall in Hall. apply Hall. apply In_zrange. simpl; lia.
Qed.

Lemma format_ok_window :
  forallb (fun h => forallb (fun m => format_ok h m) (zrange 0 60)) (zrange 9 7) = true.
Proof. vm_compute. reflexivity. Qed.

Lemma literal_ok_window :
  forallb (fun h => forallb (fun m => literal_ok h m) (zrange 0 60)) (zrange 9 7) = true.
Proof. vm_compute. reflexivity. Qed.

End Pool.

(* ------------------------------------------------------------------ *)
(** ** The time extractor *)

Import Ranking Pool.

(** C1: a time returned by [extract_time_advanced] is [f"{h};{m:02d}"] for
    an [(h, m)] with [9 <= h <= 15] and [0 <= m <= 59]; when every
    internally generated candidate lies outside this window no time is
    returned; and the text ["18;30"] alone yields no time. *)
Theorem extract_time_in_window (ocr_results : list detection) :
  (forall s, extract_time_advanced ocr_results = Some s ->
     exists h m, s = time_str_of h m /\ (9 <= h <= 15)%Z /\ (0 <= m <= 59)%Z) /\
  ((forall h m c, In (h, m, c) (raw_candidates ocr_results) ->
      ~ ((9 <= h <= 15)%Z /\ (0 <= m <= 59)%Z)) ->
   extract_time_advanced ocr_results = None) /\
  (forall bb oc, extract_time_advanced [mkDet bb (lit "18;30") oc] = None).
Proof.
  split; [|split].
  - intros s Hs. apply select_in in Hs. apply in_map_iff in Hs.
    destruct Hs as [x [<- Hx]].
    destruct (found_times_gated _ _ Hx) as [h [m [c [_ [-> V]]]]].
    apply valid_hm_iff in V. exists h, m. simpl. tauto.
  - intros Hout. apply select_none.
    destruct (found_times ocr_results) as [|x l] eqn:E; [reflexivity|].
    exfalso. assert (Hx : In x (found_times ocr_results)) by (rewrite E; left; reflexivity).
    destruct (found_times_gated _ _ Hx) as [h [m [c [Hin [_ V]]]]].
    apply valid_hm_iff in V. exact (Hout h m c Hin V).
  - intros bb oc. vm_compute. reflexivity.
Qed.

(** C4: the final selection keeps one entry per time string (each valid
    time string is one [(hour, minute)] pair, see C10), in the order of
    first insertion, with the largest confidence recorded for it; it
    returns the entry of largest confidence, the first inserted one among
    equal confidences; an empty pool gives no time. *)
Theorem select_best_candidate (found : list (str * Q)) :
  (found = [] -> select found = None) /\
  map fst (dedup found) = nodup_first (map fst found) /\
  NoDup (map fst (dedup found)) /\
  (forall k v, In (k, v) (dedup found) ->
     In (k, v) found /\ forall c', In (k, c') found -> (c' <= v)%Q) /\
  (forall s, select found = Some s ->
     exists pre c post, dedup found = pre ++ (s, c) :: post /\
       (forall x, In x pre -> (snd x < c)%Q) /\
       (forall x, In x post -> (snd x <= c)%Q)) /\
  (found <> [] -> select found <> None).
Proof.
  destruct (dedup_facts found) as [H1 [H2 H3]].
  split; [intros ->; reflexivity|].
  split; [exact H1|]. split; [exact H2|]. split; [exact H3|]. split.
  - apply select_some.
  - intros Hne Hs. apply select_none in Hs. contradiction.
Qed.

(** C6: for every [h] in [9..15] and [m] in [0..59], a detection whose text
    is [f"{h}:{m:02d}"] yields the candidate [(h, m)] and the time
    [f"{h};{m:02d}"], whatever its box and confidence. *)
Theorem literal_time_wins (h m : Z) (bb : list (Z * Z)) (oc : option Q) :
  (9 <= h <= 15)%Z -> (0 <= m <= 59)%Z ->
  In (h, m) (map drop_conf (raw_candidates [mkDet bb (colon_text h m) oc])) /\
  extract_time_advanced [mkDet bb (colon_text h m) oc] = Some (time_str_of h m).
Proof.
  intros Hh Hm.
  assert (L := window_cases literal_ok h m literal_ok_window Hh Hm).
  unfold literal_ok in L. rewrite !andb_true_iff in L.
  destruct L as [[Hne Hall] Hex].
  rewrite raw_single_indep. split.
  - apply existsb_exists in Hex. destruct Hex as [[h' m'] [Hin E]].
    simpl in E. rewrite andb_true_iff, !Z.eqb_eq in E. destruct E as [-> ->]. exact Hin.
  - apply select_same.
    + intros E. apply (f_equal (map fst)) in E. unfold found_times in E.
      rewrite keys_gate, raw_single_indep in E. rewrite E in Hne. discriminate.
    + intros x Hx. unfold found_times in Hx. rewrite forallb_forall in Hall. apply str_eqb_eq, Hall.
      rewrite <- raw_single_indep with (bb := bb) (oc := oc), <- keys_gate.
      exact (in_map fst _ _ Hx).
Qed.

Lemma literal_time_wins_witness :
  In (9%Z, 15%Z) (map drop_conf (raw_candidates [mkDet [] (colon_text 9 15) None])) /\
  extract_time_advanced [mkDet [] (colon_text 9 15) None] = Some (time_str_of 9 15).
Proof. apply (literal_time_wins 9 15 [] None); lia. Defined.

(** C10: a returned time is the hour without padding, [';'], and the minute
    on two digits, and [is_valid_time] accepts it. *)
Theorem extract_time_format (ocr_results : list detection) (s : str) :
  extract_time_advanced ocr_results = Some s ->
  exists h m, s = str_of_Z h ++ lit ";" ++ fmt_0d 2 m /\
    (9 <= h <= 15)%Z /\ (0 <= m <= 59)%Z /\
    int (str_of_Z h) = Some h /\ startswith_char (str_of_Z h) "0" = false /\
    length (fmt_0d 2 m) = 2 /\ int (fmt_0d 2 m) = Some m /\
    is_valid_time s = true.
Proof.
  intros Hs. apply select_in in Hs. apply in_map_iff in Hs.
  destruct Hs as [x [<- Hx]].
  destruct (found_times_gated _ _ Hx) as [h [m [c [_ [-> V]]]]].
  apply valid_hm_iff in V. destruct V as [Hh Hm].
  assert (F := window_cases format_ok h m format_ok_window Hh Hm).
  unfold format_ok in F. rewrite !andb_true_iff in F.
  destruct F as [[[[[Hv Heq] Hi] Hz] Hl] Hi2].
  exists h, m. simpl fst. apply str_eqb_eq in Heq. rewrite <- Heq.
  split; [reflexivity|]. split; [exact Hh|]. split; [exact Hm|]. split.
  { destruct (int (str_of_Z h)) as [v|]; [|discriminate].
    apply Z.eqb_eq in Hi. rewrite Hi. reflexivity. }
  split; [apply negb_true_iff in Hz; exact Hz|].
  split; [apply Nat.eqb_eq in Hl; exact Hl|]. split; [|exact Hv].
  destruct (int (fmt_0d 2 m)) as [v|]; [|discriminate].
  apply Z.eqb_eq in Hi2. rewrite Hi2. reflexivity.
Qed.

Lemma extract_time_format_witness :
  exists h m, lit "9;05" = str_of_Z h ++ lit ";" ++ fmt_0d 2 m /\
    (9 <= h <= 15)%Z /\ (0 <= m <= 59)%Z /\
    int (str_of_Z h) = Some h /\ startswith_char (str_of_Z h) "0" = false /\
    length (fmt_0d 2 m) = 2 /\ int (fmt_0d 2 m) = Some m /\
    is_valid_time (lit "9;05") = true.
Proof. apply (extract_time_format [det "9:05" None]). vm_compute. reflexivity. Defined.

(* ------------------------------------------------------------------ *)
(** ** The matcher on the strike pattern *)

Module Strike.

Lemma try_down_some {A} n lo (f : nat -> option A) x :
  try_down n lo f = Some x -> exists l, lo <= l <= n /\ f l = Some x.
Proof.
  induction n as [|n IH]; simpl; intros H.
  - destruct (0 <? lo) eqn:E; [discriminate|].
    apply Nat.ltb_ge in E.
    destruct (f 0) eqn:F; [|discriminate]. inversion H; subst.
    exists 0. split; [lia|exact F].
  - destruct (S n <? lo) eqn:E; [discriminate|]. apply Nat.ltb_ge in E.
    destruct (f (S n)) eqn:F.
    + inversion H; subst. exists (S n). split; [lia|exact F].
    + destruct (IH H) as [l [Hl Hf]]. exists l. split; [lia|exact Hf].
Qed.

Lemma run_spec p s hi l :
  l <= run p s hi -> l <= length s /\ Forall (fun c => p c = true) (firstn l s).
Proof.
  revert hi l. induction s as [|c s IH]; intros hi l H.
  - destruct hi as [[|k]|]; simpl in H; assert (l = 0) by lia; subst; simpl; auto.
  - destruct l as [|l]; [simpl; split; [lia|constructor]|].
    assert (Hr : run p (c :: s) hi = if p c then S (run p s (option_map pred hi)) else 0)
      by (destruct hi as [[|k]|]; simpl in *; [lia|reflexivity|reflexivity]).
    rewrite Hr in H. destruct (p c) eqn:Pc; [|lia].
    destruct (IH (option_map pred hi) l ltac:(lia)) as [H1 H2].
    simpl. split; [lia|constructor; auto].
Qed.

Lemma run_hi p s k : run p s (Some k) <= k.
Proof.
  revert k. induction s as [|c s IH]; intros [|k]; simpl; try lia.
  destruct (p c); [|lia]. specialize (IH k). simpl in *. lia.
Qed.

Lemma strike_match_sound s i j cp :
  match_at strike_re s i = Some (j, cp) ->
  exists L a, 3 <= L <= 6 /\ i + L <= a /\ L <= length (skipn i s) /\
    Forall (fun c => is_digit c = true) (firstn L (skipn i s)) /\
    cp = [(2, (a, S (S a))); (1, (i, i + L))] /\
    ((nth_error s a = Some "C"%char \/ nth_error s a = Some "P"%char) /\
     nth_error s (S a) = Some "E"%char).
Proof.
  unfold match_at, strike_re. cbn [mt Lits lit list_ascii_of_string Lit].
  intros H. apply try_down_some in H. destruct H as [L [HL H]].
  apply try_down_some in H. destruct H as [l' [_ H]].
  assert (H6 := run_hi is_digit (skipn i s) 6).
  destruct (run_spec _ _ _ L (proj2 HL)) as [Hlen Hdig].
  exists L, (i + L + l').
  assert (Hc : forall (x y : ascii), (x =? y)%char = true -> y = x)
    by (intros x y E; apply Ascii.eqb_eq in E; auto).
  destruct (nth_error s (i + L + l')) as [c|] eqn:E1; [|discriminate].
  destruct ("C" =? c)%char eqn:C1.
  - destruct (nth_error s (S (i + L + l'))) as [c'|] eqn:E2.
    + destruct ("E" =? c')%char eqn:C2.
      * inversion H; subst. apply Hc in C1, C2. subst. repeat split; auto; lia.
      * destruct ("P" =? c)%char eqn:C3; [|discriminate].
        apply Hc in C1, C3. subst. discriminate.
    + destruct ("P" =? c)%char; discriminate.
  - destruct ("P" =? c)%char eqn:C3; [|discriminate].
    destruct (nth_error s (S (i + L + l'))) as [c'|] eqn:E2; [|discriminate].
    destruct ("E" =? c')%char eqn:C2; [|discriminate].
    inversion H; subst. apply Hc in C3, C2. subst. repeat split; auto; lia.
Qed.

Lemma scan_first fuel r s i0 i j cp :
  hd_error (scan fuel r s i0) = Some (i, j, cp) ->
  i0 <= i /\ match_at r s i = Some (j, cp) /\
  forall i', i0 <= i' < i -> match_at r s i' = None.
Proof.
  revert i0. induction fuel as [|f IH]; intros i0 H; simpl in H; [discriminate|].
  destruct (length s <? i0); [discriminate|].
  destruct (match_at r s i0) as [[j0 cp0]|] eqn:M.
  - simpl in H. inversion H; subst. split; [lia|]. split; [exact M|]. intros; lia.
  - destruct (IH (S i0) H) as [H1 [H2 H3]]. split; [lia|]. split; [exact H2|].
    intros i' Hi'. destruct (Nat.eq_dec i' i0) as [->|Hne]; [exact M|]. apply H3. lia.
Qed.

Lemma search_first r s i j cp :
  search r s = Some (i, j, cp) ->
  match_at r s i = Some (j, cp) /\ forall i', i' < i -> match_at r s i' = None.
Proof.
  unfold search, finditer. intros H. destruct (scan_first _ _ _ _ _ _ _ H) as [_ [H2 H3]].
  split; auto. intros i' Hi'. apply H3. lia.
Qed.

Lemma In_all_ascii c : In c all_ascii.
Proof.
  unfold all_ascii. apply in_map_iff. exists (nat_of_ascii c). split.
  - apply ascii_nat_embedding.
  - apply in_seq. pose proof (nat_ascii_bounded c). lia.
Qed.

Lemma ascii_cases (P : ascii -> bool) : forallb P all_ascii = true -> forall c, P c = true.
Proof. intros H c. rewrite forallb_forall in H. apply H, In_all_ascii. Qed.

Lemma digit_char_facts c :
  is_digit c = true ->
  is_space c = false /\ Ascii.eqb c "-" = false /\ Ascii.eqb c "+" = false /\
  (0 <= digit_val c <= 9)%Z.
Proof.
  intros D. assert (H := ascii_cases digit_char_ok ltac:(vm_compute; reflexivity) c).
  unfold digit_char_ok in H. rewrite D in H. simpl in H.
  rewrite !andb_true_iff, !negb_true_iff, Z.leb_le in H.
  destruct H as [[[H1 H2] H3] H4]. repeat split; auto.
  unfold digit_val. lia.
Qed.

Lemma int_digits d : d <> [] -> all_digits d -> int d = Some (digits_val 0 d).
Proof.
  intros Hne Hd.
  assert (Hl : forall e, e <> [] -> all_digits e -> lstrip e = e).
  { intros [|c e] He He'; [congruence|]. inversion He' as [|? ? Hc _]; subst.
    simpl. destruct (digit_char_facts c Hc) as [-> _]. reflexivity. }
  assert (Hs : strip d = d).
  { unfold strip. rewrite (Hl d Hne Hd), Hl, rev_involutive; auto.
    - intros E. apply Hne. apply (f_equal (@rev ascii)) in E. rewrite rev_involutive in E. exact E.
    - apply Forall_rev. exact Hd. }
  assert (Hw : forall e, all_digits e -> well_underscored true e = true).
  { induction e as [|c e IH]; intros He; simpl; auto. inversion He; subst.
    rewrite H1. apply IH. exact H2. }
  assert (Hf : forall e, all_digits e -> filter is_digit e = e).
  { induction e as [|c e IH]; intros He; simpl; auto. inversion He; subst.
    rewrite H1, IH; auto. }
  unfold int. rewrite Hs. destruct d as [|c d']; [congruence|].
  inversion Hd as [|? ? Hc Hd']; subst.
  destruct (digit_char_facts c Hc) as [_ [Hm [Hp _]]]. rewrite Hm, Hp.
  assert (Hw' : well_underscored false (c :: d') = true)
    by (simpl; rewrite Hc; apply Hw; exact Hd').
  assert (Hf' : filter is_digit (c :: d') = c :: d') by (apply Hf; exact Hd).
  rewrite Hw', Hf', Z.mul_1_l. reflexivity.
Qed.

Lemma digits_val_bound acc d :
  all_digits d -> (0 <= acc)%Z ->
  (0 <= digits_val acc d < (acc + 1) * 10 ^ Z.of_nat (length d))%Z.
Proof.
  revert acc. induction d as [|c d IH]; intros acc Hd Ha.
  - simpl. lia.
  - change (digits_val acc (c :: d)) with (digits_val (10 * acc + digit_val c) d).
    change (length (c :: d)) with (S (length d)).
    inversion Hd as [|? ? Hc Hd']; subst.
    destruct (digit_char_facts c Hc) as [_ [_ [_ Hv]]].
    destruct (IH (10 * acc + digit_val c)%Z Hd' ltac:(lia)) as [H1 H2].
    split; [exact H1|]. rewrite Nat2Z.inj_succ, Z.pow_succ_r by lia.
    assert (0 < 10 ^ Z.of_nat (length d))%Z by (apply Z.pow_pos_nonneg; lia).
    nia.
Qed.

Lemma firstn2_nth (s : str) a x y :
  nth_error s a = Some x -> nth_error s (S a) = Some y -> firstn 2 (skipn a s) = [x; y].
Proof.
  revert s. induction a as [|a IH]; intros [|c s] H1 H2; simpl in *; try discriminate.
  - destruct s as [|c' s]; simpl in *; [discriminate|]. inversion H1; inversion H2; subst; reflexivity.
  - apply IH; auto.
Qed.

Lemma find_strike_capture ds s o :
  find_strike ds = Some (s, o) ->
  exists i j cp L a,
    let t := strike_text ds in
    let d := group t cp 1 in
    search strike_re t = Some (i, j, cp) /\
    (forall i', i' < i -> match_at strike_re t i' = None) /\
    d = firstn L (skipn i t) /\ length d = L /\ 3 <= L <= 6 /\ all_digits d /\
    i + L <= a /\ o = group t cp 2 /\ o = firstn 2 (skipn a t) /\
    (o = lit "CE" \/ o = lit "PE") /\
    int d = Some (digits_val 0 d) /\
    s = str_of_Z (if (4 <? length d) && endswith d (lit "00")
                  then (digits_val 0 d / 100)%Z else digits_val 0 d).
Proof.
  unfold find_strike. cbv zeta. set (t := strike_text ds).
  destruct (search strike_re t) as [[[i j] cp]|] eqn:Hs; [|discriminate].
  destruct (search_first _ _ _ _ _ Hs) as [Hm Hbefore].
  destruct (strike_match_sound _ _ _ _ Hm)
    as [L [a [HL [Ha [Hlen [Hdig [Hcp [Hx HE]]]]]]]].
  assert (G1 : group t cp 1 = firstn L (skipn i t)).
  { rewrite Hcp. unfold group. simpl find. cbv iota beta. unfold slice.
    replace (i + L - i) with L by lia. reflexivity. }
  assert (G2 : group t cp 2 = firstn 2 (skipn a t)).
  { rewrite Hcp. unfold group. simpl find. cbv iota beta. unfold slice.
    replace (S (S a) - a) with 2 by lia. reflexivity. }
  assert (Hl : length (group t cp 1) = L) by (rewrite G1; apply firstn_length_le; exact Hlen).
  assert (Hd : all_digits (group t cp 1)) by (rewrite G1; exact Hdig).
  assert (Hne : group t cp 1 <> []) by (intros E; rewrite E in Hl; simpl in Hl; lia).
  assert (Hi : int (group t cp 1) = Some (digits_val 0 (group t cp 1))) by (apply int_digits; auto).
  unfold strike_int. rewrite Hi.
  destruct ((4 <? length (group t cp 1)) && endswith (group t cp 1) (lit "00")) eqn:B;
    intros H; injection H as <- <-.
  all: exists i, j, cp, L, a; cbv zeta.
  all: split; [reflexivity|]; split; [exact Hbefore|]; split; [exact G1|].
  all: split; [exact Hl|]; split; [exact HL|]; split; [exact Hd|]; split; [exact Ha|].
  all: split; [reflexivity|]; split; [exact G2|]; split; [|split; [exact Hi|]].
  all: try (rewrite B; reflexivity).
  all: rewrite G2; destruct Hx as [Hx|Hx]; [left|right];
       rewrite (firstn2_nth _ _ _ _ Hx HE); reflexivity.
Qed.

End Strike.

(* ------------------------------------------------------------------ *)
(** ** The normalizer and the company matcher *)

Module Normalizer.

Lemma replace_item_map (f : ascii -> ascii) s item :
  replace_item (map f s) item = map (fun c => char_item (f c) item) s.
Proof.
  destruct item as [w r].
  destruct w as [|w [|w' w'']]; destruct r as [|r [|r' r'']]; try reflexivity.
  unfold replace_item, char_item, Py.replace. rewrite map_map. reflexivity.
Qed.

(** [fix_common_digit_errors] maps every character independently. *)
Lemma fix_map s : fix_common_digit_errors s = map fix_char s.
Proof.
  assert (G : forall items (f : ascii -> ascii),
             fold_left replace_item items (map f s)
             = map (fun c => fold_left char_item items (f c)) s).
  { induction items as [|it items IH]; intros f; simpl; [reflexivity|].
    rewrite replace_item_map, IH. reflexivity. }
  unfold fix_common_digit_errors, fix_char.
  rewrite <- (map_id s) at 1. apply G.
Qed.

Lemma fix_char_facts c :
  (mapped c = true \/ fix_char c = c) /\ fix_char (fix_char c) = fix_char c.
Proof.
  assert (H := Strike.ascii_cases
    (fun c => (mapped c || Ascii.eqb (fix_char c) c)
              && Ascii.eqb (fix_char (fix_char c)) (fix_char c))
    ltac:(vm_compute; reflexivity) c).
  cbv beta in H. rewrite andb_true_iff, orb_true_iff, !Ascii.eqb_eq in H. tauto.
Qed.

End Normalizer.

Module Company.

Lemma mt_Lits_chars e s i cp k r :
  e <> [] -> mt (Lits e) s i cp k = Some r -> forall x, In x e -> In x s.
Proof.
  revert i. induction e as [|c e IH]; intros i Hne H x Hx; [congruence|].
  assert (Hc : forall K, mt (Lit c) s i cp K = Some r -> In c s).
  { intros K HK. simpl in HK. destruct (nth_error s i) as [c'|] eqn:E; [|discriminate].
    destruct (Ascii.eqb c c') eqn:C; [|discriminate].
    apply Ascii.eqb_eq in C. subst. exact (nth_error_In _ _ E). }
  destruct e as [|c2 e'].
  - destruct Hx as [<-|[]]. exact (Hc k H).
  - change (mt (Seq (Lit c) (Lits (c2 :: e'))) s i cp k = Some r) in H.
    destruct Hx as [<-|Hx].
    + exact (Hc (fun j cp' => mt (Lits (c2 :: e')) s j cp' k) H).
    + simpl in H. destruct (nth_error s i) as [c'|] eqn:E; [|discriminate].
      destruct (Ascii.eqb c c'); [|discriminate].
      exact (IH (S i) ltac:(discriminate) H x Hx).
Qed.

Lemma text_for_search_no_I_L ds x :
  In x (text_for_search ds) -> x <> "I"%char /\ x <> "L"%char.
Proof.
  unfold text_for_search, Py.replace. rewrite map_map. intros H.
  apply in_map_iff in H. destruct H as [c [<- _]].
  destruct (Ascii.eqb c "I") eqn:CI; [simpl; split; discriminate|].
  destruct (Ascii.eqb c "L") eqn:CL; [split; discriminate|].
  apply Ascii.eqb_neq in CI, CL. auto.
Qed.

End Company.

(* ------------------------------------------------------------------ *)
(** ** The strike extractor *)

(** C3: when the strike pattern matches, its first (leftmost) match
    captures a run [d] of 3 to 6 digits followed later by ["CE"] or
    ["PE"]; the strike is [str(int(d) // 100)] when [len(d) > 4] and [d]
    ends in ["00"], and [str(int(d))] otherwise; the option type is the
    ["CE"]/["PE"] token of that same match. *)
Theorem strike_normalization (ocr_results : list detection) (s o : str) :
  find_strike ocr_results = Some (s, o) ->
  exists i j cp,
    search strike_re (strike_text ocr_results) = Some (i, j, cp) /\
    (forall i', i' < i -> match_at strike_re (strike_text ocr_results) i' = None) /\
    let d := group (strike_text ocr_results) cp 1 in
    3 <= length d <= 6 /\ all_digits d /\
    d = firstn (length d) (skipn i (strike_text ocr_results)) /\
    (exists a, i + length d <= a /\ o = firstn 2 (skipn a (strike_text ocr_results))) /\
    (o = lit "CE" \/ o = lit "PE") /\
    int d = Some (digits_val 0 d) /\
    s = str_of_Z (if (4 <? length d) && endswith d (lit "00")
                  then (digits_val 0 d / 100)%Z else digits_val 0 d).
Proof.
  intros H.
  destruct (Strike.find_strike_capture _ _ _ H)
    as [i [j [cp [L [a [Hs [Hb [G1 [Hl [HL [Hd [Ha [_ [G2 [Ho [Hi Hv]]]]]]]]]]]]]]]].
  exists i, j, cp. split; [exact Hs|]. split; [exact Hb|]. cbv zeta.
  rewrite Hl. split; [exact HL|]. split; [exact Hd|]. split; [exact G1|].
  split; [exists a; split; [exact Ha|exact G2]|].
  split; [exact Ho|]. split; [exact Hi|]. rewrite <- Hl. exact Hv.
Qed.

Lemma strike_normalization_witness :
  find_strike [det "620000CE" None] = Some (lit "6200", lit "CE") /\
  exists i j cp, search strike_re (strike_text [det "620000CE" None]) = Some (i, j, cp).
Proof.
  split; [vm_compute; reflexivity|].
  destruct (strike_normalization [det "620000CE" None] (lit "6200") (lit "CE")
              ltac:(vm_compute; reflexivity)) as [i [j [cp [Hs _]]]].
  exists i, j, cp. exact Hs.
Defined.

(** C5 (counterexample): the text ["12345CE"] yields the strike ["12345"],
    which is not the rendering of any integer from 1 to 9999. *)
Lemma strike_bounds_counterexample :
  ~ (forall ocr_results s o, find_strike ocr_results = Some (s, o) ->
       exists n, s = str_of_Z n /\ (1 <= n <= 9999)%Z).
Proof.
  intros H.
  destruct (H [det "12345CE" None] (lit "12345") (lit "CE") ltac:(vm_compute; reflexivity))
    as [n [Hs Hn]].
  assert (Hall : forallb (fun n => negb (str_eqb (str_of_Z n) (lit "12345")))
                   (zrange 1 (Z.to_nat 9999)) = true) by (vm_compute; reflexivity).
  rewrite forallb_forall in Hall.
  specialize (Hall n (Pool.In_zrange 1 (Z.to_nat 9999) n ltac:(rewrite Z2Nat.id; lia))).
  rewrite <- Hs, str_eqb_refl in Hall. discriminate.
Qed.

(** C5 (amended): the strike is [str(n)], with [d] the captured run of 3
    to 6 digits: [n = int(d) // 100] when [d] has more than 4 digits and
    ends in ["00"], [n = int(d)] otherwise. So [0 <= n < 10^6], [n < 10^4]
    when [d] has at most 4 digits or ends in ["00"], and a run of 5 or 6
    digits not ending in ["00"] is kept whole: [n = int(d)]. *)
Theorem strike_bounds (ocr_results : list detection) (s o : str) :
  find_strike ocr_results = Some (s, o) ->
  exists i j cp n,
    search strike_re (strike_text ocr_results) = Some (i, j, cp) /\
    s = str_of_Z n /\ (0 <= n < 1000000)%Z /\
    let d := group (strike_text ocr_results) cp 1 in
    3 <= length d <= 6 /\ all_digits d /\ int d = Some (digits_val 0 d) /\
    n = (if (4 <? length d) && endswith d (lit "00")
         then (digits_val 0 d / 100)%Z else digits_val 0 d) /\
    ((length d <= 4 \/ endswith d (lit "00") = true) -> (n < 10000)%Z) /\
    (5 <= length d -> endswith d (lit "00") = false -> n = digits_val 0 d).
Proof.
  intros H.
  destruct (Strike.find_strike_capture _ _ _ H)
    as [i [j [cp [L [a [Hs [_ [_ [Hl [HL [Hd [_ [_ [_ [_ [Hi Hv]]]]]]]]]]]]]]]].
  cbv zeta in *. set (d := group (strike_text ocr_results) cp 1) in *.
  destruct (Strike.digits_val_bound 0 d Hd ltac:(lia)) as [B0 B1].
  rewrite Hl in B1. simpl (0 + 1)%Z in B1.
  assert (P6 : (10 ^ Z.of_nat L <= 10 ^ 6)%Z) by (apply Z.pow_le_mono_r; lia).
  assert (P4 : L <= 4 -> (10 ^ Z.of_nat L <= 10 ^ 4)%Z) by (intros; apply Z.pow_le_mono_r; lia).
  destruct ((4 <? length d) && endswith d (lit "00")) eqn:E.
  - exists i, j, cp, (digits_val 0 d / 100)%Z.
    split; [exact Hs|]. split; [exact Hv|].
    split; [split; [apply Z.div_pos; lia|apply Z.div_lt_upper_bound; lia]|].
    cbv zeta. fold d. split; [rewrite Hl; exact HL|]. split; [exact Hd|].
    split; [exact Hi|]. split; [rewrite E; reflexivity|]. split.
    + intros _. apply Z.div_lt_upper_bound; lia.
    + intros _ Hf. rewrite Hf, andb_false_r in E. discriminate.
  - exists i, j, cp, (digits_val 0 d).
    split; [exact Hs|]. split; [exact Hv|]. split; [lia|].
    cbv zeta. fold d. split; [rewrite Hl; exact HL|]. split; [exact Hd|].
    split; [exact Hi|]. split; [rewrite E; reflexivity|]. split; [|intros _ _; reflexivity].
    intros Hc. rewrite andb_false_iff, Nat.ltb_ge in E.
    assert (L <= 4) by (destruct Hc as [Hc|Hc]; destruct E as [E|E]; try lia; congruence).
    specialize (P4 H0). lia.
Qed.

Lemma strike_bounds_witness :
  find_strike [det "12345CE" None] = Some (lit "12345", lit "CE") /\
  exists i j cp n, search strike_re (strike_text [det "12345CE" None]) = Some (i, j, cp) /\
    lit "12345" = str_of_Z n.
Proof.
  split; [vm_compute; reflexivity|].
  destruct (strike_bounds [det "12345CE" None] (lit "12345") (lit "CE")
              ltac:(vm_compute; reflexivity)) as [i [j [cp [n [Hs [Hn _]]]]]].
  exists i, j, cp, n. split; [exact Hs|exact Hn].
Defined.

(* ------------------------------------------------------------------ *)
(** ** The digit normaliser, the scenarios and the company search *)

(** C9: [fix_common_digit_errors] leaves a string without a character of
    its dictionary unchanged, and applying it to its own output changes
    nothing. *)
Theorem fix_common_digit_errors_idempotent :
  (forall s, (forall c, In c s -> mapped c = false) -> fix_common_digit_errors s = s) /\
  (forall s, fix_common_digit_errors (fix_common_digit_errors s) = fix_common_digit_errors s).
Proof.
  split.
  - intros s Hs. rewrite Normalizer.fix_map.
    induction s as [|c s IH]; [reflexivity|]. simpl. f_equal.
    + destruct (Normalizer.fix_char_facts c) as [[Hm|Hf] _]; auto.
      rewrite (Hs c (or_introl eq_refl)) in Hm. discriminate.
    + apply IH. intros c' Hc'. apply Hs. right. exact Hc'.
  - intros s. rewrite !Normalizer.fix_map, map_map. apply map_ext.
    intros c. apply Normalizer.fix_char_facts.
Qed.

(** C8 (counterexample): on the text ["71;50"] the hour repair does not
    produce [(1, 50)] and the time is not ["1;50"]. *)
Lemma scenario_B_counterexample :
  ~ (In (1%Z, 50%Z, 7 # 10) (strategy2 (full_text [det "71;50" None])) /\
     extract_time_advanced [det "71;50" None] = Some (time_str_of 1 50)).
Proof.
  intros [H1 _].
  assert (E : strategy2 (full_text [det "71;50" None])
              = [(11%Z, 50%Z, 7 # 10); (11%Z, 50%Z, 7 # 10)])
    by (vm_compute; reflexivity).
  rewrite E in H1. destruct H1 as [H1|[H1|[]]]; discriminate.
Qed.

(** C8 (amended): on a detection whose text is ["71;50"], the hour repair
    (strategy 2) produces [(11, 50)] at confidence 0.7, from two of its
    patterns; the template repair (strategy 5) produces [(11, 50)] at 0.8;
    [(11, 50)] passes the validity test and the time is ["11;50"]. *)
Theorem scenario_B_repaired (bb : list (Z * Z)) (oc : option Q) :
  strategy2 (full_text [mkDet bb (lit "71;50") oc])
    = [(11%Z, 50%Z, 7 # 10); (11%Z, 50%Z, 7 # 10)] /\
  In (11%Z, 50%Z, 8 # 10) (strategy5 (full_text [mkDet bb (lit "71;50") oc])) /\
  valid_hm 11 50 = true /\
  extract_time_advanced [mkDet bb (lit "71;50") oc] = Some (time_str_of 11 50) /\
  time_str_of 11 50 = lit "11;50".
Proof.
  split; [vm_compute; reflexivity|].
  split; [vm_compute; left; reflexivity|].
  split; [reflexivity|].
  split; [vm_compute; reflexivity|].
  vm_compute. reflexivity.
Qed.

(** C7: on Scenario A, [find_all_details] finds the company ["ABB"], the
    strike ["6200"] and the option type ["CE"], but no time: the
    zero-padded ["09:15"] matches none of the time patterns, whose hour
    must start at a word boundary. *)
Theorem scenario_A_details (oc : option Q) :
  find_all_details
    (map (fun t => mkDet [] (lit t) oc) ["SYMBOL"; "ABB"; "STRIKE1"; "6200CE"; "09:15"]%string)
    [lit "ABB"; lit "TCS"]
  = (Some (lit "ABB"), Some (lit "6200"), Some (lit "CE"), None).
Proof. vm_compute. reflexivity. Qed.

(** C2: a registry entry containing ['I'] or ['L'] is never found, because
    the text searched has its ['I'] and ['L'] replaced by ['1'] while the
    entry is not; so the whole word ["LT"] is not matched. *)
Theorem company_with_I_or_L_missed :
  find_company [det "LT" None] [lit "LT"] = None /\
  forall ocr_results (company_symbol : str),
    In "I"%char company_symbol \/ In "L"%char company_symbol ->
    found_in (text_for_search ocr_results) (company_re company_symbol) = false.
Proof.
  split; [vm_compute; reflexivity|].
  intros ds e He. unfold found_in.
  destruct (search (company_re e) (text_for_search ds)) as [[[i j] cp]|] eqn:S; [|reflexivity].
  exfalso. destruct (Strike.search_first _ _ _ _ _ S) as [Hm _].
  unfold match_at, company_re in Hm. cbn [mt] in Hm.
  destruct (at_boundary (text_for_search ds) i); [|discriminate].
  assert (Hne : e <> []) by (intros ->; destruct He as [[]|[]]).
  destruct He as [He|He];
    destruct (Company.text_for_search_no_I_L ds _
                (Company.mt_Lits_chars _ _ _ _ _ _ Hne Hm _ He)) as [N1 N2];
    [apply N1|apply N2]; reflexivity.
Qed.

Module Numerals.

Lemma digits_val_app a x y : digits_val a (x ++ y) = digits_val (digits_val a x) y.
Proof. revert a. induction x as [|c x IH]; intros a; simpl; auto. Qed.

Lemma digit_of_mod (n : Z) :
  let d := ascii_of_nat (Z.to_nat (n mod 10) + code "0") in
  is_digit d = true /\ digit_val d = (n mod 10)%Z.
Proof.
  cbv zeta. assert (H := Z.mod_pos_bound n 10 ltac:(lia)).
  assert (H' : Z.to_nat (n mod 10) < 10) by (apply Nat2Z.inj_lt; rewrite Z2Nat.id; lia).
  assert (Hc : code (ascii_of_nat (Z.to_nat (n mod 10) + code "0"))
               = Z.to_nat (n mod 10) + 48).
  { unfold code. rewrite nat_ascii_embedding; [reflexivity|].
    change (nat_of_ascii "0") with 48. lia. }
  unfold is_digit, between, digit_val. rewrite Hc.
  change (code "0") with 48. change (code "9") with 57. split.
  - apply andb_true_iff. split; apply Nat.leb_le; lia.
  - rewrite Nat.add_sub, Z2Nat.id; lia.
Qed.

Lemma digits_of_pos_spec fuel (n : Z) acc :
  (0 <= n < 10 ^ Z.of_nat (S fuel))%Z ->
  exists ds, digits_of_pos (S fuel) n acc = ds ++ acc /\ ds <> [] /\ all_digits ds /\
             digits_val 0 ds = n.
Proof.
  revert n acc. induction fuel as [|f IH]; intros n acc Hn.
  - destruct (digit_of_mod n) as [D V]. simpl.
    replace (n <? 10)%Z with true by (symmetry; apply Z.ltb_lt; simpl in Hn; lia).
    eexists [_]. split; [reflexivity|]. split; [discriminate|].
    split; [constructor; [exact D|constructor]|].
    simpl. rewrite V. apply Z.mod_small. simpl in Hn. lia.
  - destruct (digit_of_mod n) as [D V].
    change (digits_of_pos (S (S f)) n acc) with
      (let d := ascii_of_nat (Z.to_nat (n mod 10) + code "0") in
       if (n <? 10)%Z then d :: acc else digits_of_pos (S f) (n / 10) (d :: acc)).
    cbv zeta. destruct (n <? 10)%Z eqn:L.
    + apply Z.ltb_lt in L. eexists [_]. split; [reflexivity|]. split; [discriminate|].
      split; [constructor; [exact D|constructor]|].
      simpl. rewrite V. apply Z.mod_small. lia.
    + apply Z.ltb_ge in L.
      destruct (IH (n / 10)%Z (ascii_of_nat (Z.to_nat (n mod 10) + code "0") :: acc))
        as [ds [E [Hne [Hd Hv]]]].
      { split; [apply Z.div_pos; lia|].
        apply Z.div_lt_upper_bound; [lia|].
        rewrite <- Z.pow_succ_r by lia. rewrite <- Nat2Z.inj_succ. lia. }
      exists (ds ++ [ascii_of_nat (Z.to_nat (n mod 10) + code "0")]).
      rewrite <- app_assoc. split; [exact E|]. split; [destruct ds; [congruence|discriminate]|].
      split; [apply Forall_app; split; [exact Hd|constructor; [exact D|constructor]]|].
      rewrite digits_val_app, Hv. cbn [digits_val]. rewrite V.
      pose proof (Z.div_mod n 10 ltac:(lia)). lia.
Qed.

Lemma str_of_nonneg (n : Z) :
  (0 <= n)%Z -> exists ds, str_of_Z n = ds /\ ds <> [] /\ all_digits ds /\ digits_val 0 ds = n.
Proof.
  intros Hn. unfold str_of_Z. replace (n <? 0)%Z with false by (symmetry; apply Z.ltb_ge; lia).
  destruct (digits_of_pos_spec (Z.to_nat (Z.log2 n)) n [] ) as [ds [E H]].
  { split; [exact Hn|]. rewrite Nat2Z.inj_succ, Z2Nat.id by apply Z.log2_nonneg.
    destruct (Z.eq_dec n 0) as [->|Hn0]; [simpl; lia|].
    destruct (Z.log2_spec n ltac:(lia)) as [_ H2].
    eapply Z.lt_le_trans; [exact H2|].
    apply Z.pow_le_mono_l. split; [lia|lia]. }
  exists ds. rewrite E, app_nil_r. split; [reflexivity|exact H].
Qed.

Lemma strip_no_space (s : str) : Forall (fun c => is_space c = false) s -> strip s = s.
Proof.
  assert (Hl : forall e, Forall (fun c => is_space c = false) e -> lstrip e = e).
  { intros [|c e] He; [reflexivity|]. inversion He; subst. simpl. rewrite H1. reflexivity. }
  intros Hs. unfold strip. rewrite (Hl s Hs), Hl, rev_involutive; [reflexivity|].
  apply Forall_rev. exact Hs.
Qed.

Lemma digits_no_space (ds : str) : all_digits ds -> Forall (fun c => is_space c = false) ds.
Proof.
  intros H. eapply Forall_impl; [|exact H]. intros c Hc. apply (Strike.digit_char_facts c Hc).
Qed.

Lemma int_neg_digits (ds : str) :
  ds <> [] -> all_digits ds -> int ("-"%char :: ds) = Some (- digits_val 0 ds)%Z.
Proof.
  intros Hne Hd.
  assert (Hw : forall e, all_digits e -> well_underscored true e = true).
  { induction e as [|c e IH]; intros He; simpl; auto. inversion He; subst.
    rewrite H1. apply IH. exact H2. }
  assert (Hf : forall e, all_digits e -> filter is_digit e = e).
  { induction e as [|c e IH]; intros He; simpl; auto. inversion He; subst.
    rewrite H1, IH; auto. }
  unfold int. rewrite strip_no_space.
  2: { constructor; [reflexivity|]. apply digits_no_space, Hd. }
  simpl (Ascii.eqb "-" "-").
  destruct ds as [|c d']; [congruence|]. inversion Hd as [|? ? Hc Hd']; subst.
  cbv iota beta.
  assert (Hw' : well_underscored false (c :: d') = true)
    by (simpl; rewrite Hc; apply Hw; exact Hd').
  rewrite Hw', (Hf _ Hd). f_equal.
Qed.

(** [int(str(n)) == n] *)
Lemma int_str_of_Z (n : Z) : int (str_of_Z n) = Some n.
Proof.
  destruct (Z.ltb_spec n 0) as [Hn|Hn].
  - destruct (str_of_nonneg (- n)) as [ds [E [Hne [Hd Hv]]]]; [lia|].
    assert (E' : str_of_Z n = "-"%char :: ds).
    { unfold str_of_Z. replace (n <? 0)%Z with true by (symmetry; apply Z.ltb_lt; lia).
      unfold str_of_Z in E. replace (- n <? 0)%Z with false in E
        by (symmetry; apply Z.ltb_ge; lia). rewrite E. reflexivity. }
    rewrite E', int_neg_digits by auto. f_equal. lia.
  - destruct (str_of_nonneg n) as [ds [E [Hne [Hd Hv]]]]; [lia|].
    rewrite E, Strike.int_digits by auto. f_equal. exact Hv.
Qed.

(** The characters of [str(n)]: digits and possibly a leading ['-']. *)
Lemma str_of_Z_chars (n : Z) c :
  In c (str_of_Z n) -> is_digit c = true \/ c = "-"%char.
Proof.
  intros H. destruct (Z.ltb_spec n 0) as [Hn|Hn].
  - destruct (str_of_nonneg (- n)) as [ds [E [_ [Hd _]]]]; [lia|].
    unfold str_of_Z in H, E. replace (n <? 0)%Z with true in H by (symmetry; apply Z.ltb_lt; lia).
    replace (- n <? 0)%Z with false in E by (symmetry; apply Z.ltb_ge; lia).
    rewrite E in H. destruct H as [<-|H]; [right; reflexivity|left].
    unfold all_digits in Hd; rewrite Forall_forall in Hd. apply Hd, H.
  - destruct (str_of_nonneg n) as [ds [E [_ [Hd _]]]]; [lia|].
    rewrite E in H. left. unfold all_digits in Hd; rewrite Forall_forall in Hd. apply Hd, H.
Qed.

Lemma fmt_0d_chars w (n : Z) c :
  In c (fmt_0d w n) -> is_digit c = true \/ c = "-"%char.
Proof.
  unfold fmt_0d. intros H. apply in_app_or in H. destruct H as [H|H].
  - destruct (n <? 0)%Z; [destruct H as [<-|[]]; right; reflexivity|destruct H].
  - apply in_app_or in H. destruct H as [H|H].
    + apply repeat_spec in H. subst. left. reflexivity.
    + apply (str_of_Z_chars _ _ H).
Qed.

(** [int(f"{n:0wd}") == n] *)
Lemma int_fmt_0d w (n : Z) : int (fmt_0d w n) = Some n.
Proof.
  destruct (str_of_nonneg (Z.abs n)) as [ds [E [Hne [Hd Hv]]]]; [lia|].
  set (k := w - length (if (n <? 0)%Z then ["-"%char] else []) - length (str_of_Z (Z.abs n))).
  assert (Hz : all_digits (repeat "0"%char k ++ ds)).
  { apply Forall_app. split; [|exact Hd]. apply Forall_forall.
    intros x Hx. apply repeat_spec in Hx. subst. reflexivity. }
  assert (Hzv : digits_val 0 (repeat "0"%char k ++ ds) = digits_val 0 ds).
  { rewrite digits_val_app. f_equal. clear. induction k as [|k IH]; [reflexivity|].
    simpl repeat. change (digits_val 0 ("0"%char :: repeat "0"%char k))
      with (digits_val (10 * 0 + digit_val "0") (repeat "0"%char k)).
    exact IH. }
  assert (Hne' : repeat "0"%char k ++ ds <> []) by (destruct (repeat "0"%char k); [exact Hne|discriminate]).
  unfold fmt_0d. fold k. rewrite E.
  destruct (Z.ltb_spec n 0) as [Hn|Hn].
  - simpl app. rewrite int_neg_digits by auto. rewrite Hzv, Hv. f_equal. lia.
  - simpl app. rewrite Strike.int_digits by auto. rewrite Hzv, Hv. f_equal. lia.
Qed.

End Numerals.

Module ValidTime.
Import Numerals.

Definition no_sep (s : str) : Prop :=
  forall c, In c s -> c <> ";"%char /\ c <> ":"%char /\ c <> "."%char.

Lemma split_two (sep : ascii) (a b : str) :
  (forall c, In c a -> c <> sep) -> (forall c, In c b -> c <> sep) ->
  Py.split sep (a ++ sep :: b) = [a; b].
Proof.
  intros Ha Hb.
  assert (Hb' : Py.split sep b = [b]).
  { clear Ha. induction b as [|c b IH]; [reflexivity|]. simpl.
    destruct (Ascii.eqb_spec c sep) as [E|E].
    - exfalso. exact (Hb c (or_introl eq_refl) E).
    - rewrite IH; [reflexivity|]. intros x Hx. apply Hb. right. exact Hx. }
  induction a as [|c a IH]; simpl.
  - rewrite Ascii.eqb_refl, Hb'. reflexivity.
  - destruct (Ascii.eqb_spec c sep) as [E|E].
    + exfalso. exact (Ha c (or_introl eq_refl) E).
    + rewrite IH; [reflexivity|]. intros x Hx. apply Ha. right. exact Hx.
Qed.

Lemma contains_char_app (c : ascii) (a b : str) :
  contains_char c (a ++ b) = contains_char c a || contains_char c b.
Proof. unfold contains_char. apply existsb_app. Qed.

Lemma contains_char_no (c : ascii) (a : str) : (forall x, In x a -> x <> c) -> contains_char c a = false.
Proof.
  intros H. unfold contains_char. apply not_true_iff_false. rewrite existsb_exists.
  intros [x [Hx E]]. apply Ascii.eqb_eq in E. exact (H x Hx (eq_sym E)).
Qed.

Lemma is_valid_time_join (sep : ascii) (a b : str) :
  sep = ";"%char \/ sep = ":"%char \/ sep = "."%char -> no_sep a -> no_sep b ->
  is_valid_time (a ++ sep :: b) = parse_hm [a; b].
Proof.
  intros Hsep Ha Hb.
  assert (Na : forall x, contains_char x a = false \/ ~ (x = ";"%char \/ x = ":"%char \/ x = "."%char)).
  { intros x. destruct (ascii_dec x ";") as [->|n1]; [left; apply contains_char_no; intros y Hy; apply Ha, Hy|].
    destruct (ascii_dec x ":") as [->|n2]; [left; apply contains_char_no; intros y Hy; apply Ha, Hy|].
    destruct (ascii_dec x ".") as [->|n3]; [left; apply contains_char_no; intros y Hy; apply Ha, Hy|].
    right. tauto. }
  assert (Nb : forall x, contains_char x b = false \/ ~ (x = ";"%char \/ x = ":"%char \/ x = "."%char)).
  { intros x. destruct (ascii_dec x ";") as [->|n1]; [left; apply contains_char_no; intros y Hy; apply Hb, Hy|].
    destruct (ascii_dec x ":") as [->|n2]; [left; apply contains_char_no; intros y Hy; apply Hb, Hy|].
    destruct (ascii_dec x ".") as [->|n3]; [left; apply contains_char_no; intros y Hy; apply Hb, Hy|].
    right. tauto. }
  assert (Ca : forall x, x = ";"%char \/ x = ":"%char \/ x = "."%char -> contains_char x a = false)
    by (intros x Hx; destruct (Na x); tauto).
  assert (Cb : forall x, x = ";"%char \/ x = ":"%char \/ x = "."%char -> contains_char x b = false)
    by (intros x Hx; destruct (Nb x); tauto).
  assert (Sa : forall x, x = ";"%char \/ x = ":"%char \/ x = "."%char -> forall y, In y a -> y <> x)
    by (intros x Hx y Hy; specialize (Ha y Hy); intros ->; tauto).
  assert (Sb : forall x, x = ";"%char \/ x = ":"%char \/ x = "."%char -> forall y, In y b -> y <> x)
    by (intros x Hx y Hy; specialize (Hb y Hy); intros ->; tauto).
  replace (a ++ sep :: b) with (a ++ [sep] ++ b) by reflexivity.
  unfold is_valid_time. rewrite !contains_char_app.
  rewrite (Ca ";"%char), (Cb ";"%char), (Ca ":"%char), (Cb ":"%char) by tauto.
  change ([sep] ++ b) with (sep :: b).
  destruct Hsep as [ -> | [ -> | -> ]].
  - change (contains_char ";"%char [";"%char]) with true. simpl orb. cbv iota.
    rewrite split_two; auto; apply Sa || apply Sb; tauto.
  - change (contains_char ";"%char [":"%char]) with false. change (contains_char ":"%char [":"%char]) with true.
    simpl orb. cbv iota. rewrite split_two; auto; apply Sa || apply Sb; tauto.
  - change (contains_char ";"%char ["."%char]) with false. change (contains_char ":"%char ["."%char]) with false.
    change (contains_char "."%char ["."%char]) with true.
    rewrite (Ca "."%char), (Cb "."%char) by tauto.
    simpl orb. cbv iota. rewrite split_two; auto; apply Sa || apply Sb; tauto.
Qed.

Lemma str_of_Z_no_sep n : no_sep (str_of_Z n).
Proof.
  intros c Hc. destruct (str_of_Z_chars n c Hc) as [D| ->]; [|repeat split; discriminate].
  destruct (Strike.digit_char_facts c D) as [_ [_ [_ _]]].
  repeat split; intros ->; discriminate.
Qed.

Lemma fmt_0d_no_sep w n : no_sep (fmt_0d w n).
Proof.
  intros c Hc. destruct (fmt_0d_chars w n c Hc) as [D| ->]; [|repeat split; discriminate].
  repeat split; intros ->; discriminate.
Qed.

End ValidTime.

Import Numerals ValidTime.

(** X1: [is_valid_time] reads back what [str(h) + sep + str(m)] and [str(h) + sep + f'{m:02d}'] write, for each of the separators ';', ':' and '.': it accepts exactly when 9 <= h <= 15 and 0 <= m <= 59. *)
Theorem is_valid_time_round_trip (h m : Z) (sep : ascii) :
  sep = ";"%char \/ sep = ":"%char \/ sep = "."%char ->
  is_valid_time (str_of_Z h ++ sep :: str_of_Z m) = valid_hm h m /\
  is_valid_time (str_of_Z h ++ sep :: fmt_0d 2 m) = valid_hm h m.
Proof.
  intros Hsep. split.
  - rewrite is_valid_time_join by (auto using str_of_Z_no_sep).
    unfold parse_hm. rewrite !int_str_of_Z. reflexivity.
  - rewrite is_valid_time_join by (auto using str_of_Z_no_sep, fmt_0d_no_sep).
    unfold parse_hm. rewrite int_str_of_Z, int_fmt_0d. reflexivity.
Qed.

Lemma is_valid_time_round_trip_witness :
  (":"%char = ";"%char \/ ":"%char = ":"%char \/ ":"%char = "."%char) /\
  is_valid_time (str_of_Z 9 ++ ":"%char :: str_of_Z 5) = valid_hm 9 5 /\
  is_valid_time (str_of_Z 9 ++ ":"%char :: fmt_0d 2 5) = valid_hm 9 5.
Proof.
  split; [right; left; reflexivity|].
  apply (is_valid_time_round_trip 9 5 ":"%char). right; left; reflexivity.
Defined.

Module Reads.

Lemma subset_cls_spec p q c : subset_cls p q = true -> p c = true -> q c = true.
Proof.
  intros H Hp. unfold subset_cls in H. rewrite forallb_forall in H.
  specialize (H c (Strike.In_all_ascii c)). rewrite Hp in H. exact H.
Qed.

Lemma mt_cont r : forall s i cp k x, mt r s i cp k = Some x -> exists j cp', k j cp' = Some x.
Proof.
  induction r as [p|r1 IH1 r2 IH2|r1 IH1 r2 IH2|n r1 IH| | p lo hi];
    intros s i cp k x H; simpl in H.
  - destruct (nth_error s i) as [c|]; [|discriminate].
    destruct (p c); [eauto|discriminate].
  - destruct (IH1 _ _ _ _ _ H) as [j [cp' H']]. eapply IH2. exact H'.
  - destruct (mt r1 s i cp k) as [y|] eqn:E.
    + inversion H; subst. eapply IH1. exact E.
    + eapply IH2. exact H.
  - destruct (IH _ _ _ _ _ H) as [j [cp' H']]. eauto.
  - destruct (at_boundary s i); [eauto|discriminate].
  - destruct (Strike.try_down_some _ _ _ _ H) as [l [_ Hl]]. eauto.
Qed.

Lemma mt_needs q r :
  needs q r = true -> forall s i cp k x, mt r s i cp k = Some x ->
  exists c, In c s /\ q c = true.
Proof.
  induction r as [p|r1 IH1 r2 IH2|r1 IH1 r2 IH2|n r1 IH| | p lo hi];
    intros Hn s i cp k x H; cbn [needs mt] in Hn, H.
  - destruct (nth_error s i) as [c|] eqn:E; [|discriminate].
    destruct (p c) eqn:P; [|discriminate].
    exists c. split; [exact (nth_error_In _ _ E)|]. exact (subset_cls_spec _ _ _ Hn P).
  - apply orb_true_iff in Hn. destruct Hn as [Hn|Hn].
    + exact (IH1 Hn _ _ _ _ _ H).
    + destruct (mt_cont _ _ _ _ _ _ H) as [j [cp' H']]. exact (IH2 Hn _ _ _ _ _ H').
  - apply andb_true_iff in Hn. destruct Hn as [Hn1 Hn2].
    destruct (mt r1 s i cp k) as [y|] eqn:E.
    + exact (IH1 Hn1 _ _ _ _ _ E).
    + exact (IH2 Hn2 _ _ _ _ _ H).
  - exact (IH Hn _ _ _ _ _ H).
  - discriminate.
  - apply andb_true_iff in Hn. destruct Hn as [Hlo Hs]. apply Nat.ltb_lt in Hlo.
    destruct (Strike.try_down_some _ _ _ _ H) as [l [Hl _]].
    destruct (Strike.run_spec _ _ _ l (proj2 Hl)) as [Hlen Hall].
    destruct (skipn i s) as [|c t] eqn:E; [simpl in Hlen; lia|].
    destruct l as [|l]; [lia|]. simpl in Hall. inversion Hall; subst.
    exists c. split.
    + rewrite <- (firstn_skipn i s), E. apply in_or_app. right. left. reflexivity.
    + exact (subset_cls_spec _ _ _ Hs H2).
Qed.

Lemma scan_In fuel r s i0 i j cp :
  In (i, j, cp) (scan fuel r s i0) -> match_at r s i = Some (j, cp).
Proof.
  revert i0. induction fuel as [|f IH]; intros i0 H; simpl in H; [destruct H|].
  destruct (length s <? i0); [destruct H|].
  destruct (match_at r s i0) as [[j0 cp0]|] eqn:M.
  - destruct H as [H|H]; [inversion H; subst; exact M|]. exact (IH _ H).
  - exact (IH _ H).
Qed.

Lemma finditer_needs q r s :
  needs q r = true -> finditer r s <> [] -> exists c, In c s /\ q c = true.
Proof.
  intros Hn Hne. destruct (finditer r s) as [|[[i j] cp] ms] eqn:E; [congruence|].
  assert (M : match_at r s i = Some (j, cp)).
  { unfold finditer in E. apply (scan_In (S (length s)) r s 0). rewrite E. left. reflexivity. }
  exact (mt_needs q r Hn _ _ _ _ _ M).
Qed.

Lemma findall_needs q ng r s :
  needs q r = true -> (forall c, In c s -> q c = false) -> findall ng r s = [].
Proof.
  intros Hn Hs. unfold findall. destruct (finditer r s) eqn:E; [reflexivity|].
  exfalso. destruct (finditer_needs q r s Hn) as [c [Hc Hq]]; [rewrite E; discriminate|].
  rewrite (Hs c Hc) in Hq. discriminate.
Qed.

Lemma flat_map_nil {A B} (f : A -> list B) l :
  (forall x, In x l -> f x = []) -> flat_map f l = [].
Proof.
  induction l as [|x l IH]; intros H; [reflexivity|]. simpl.
  rewrite (H x (or_introl eq_refl)), IH; [reflexivity|]. intros y Hy. apply H. right. exact Hy.
Qed.

Lemma sub_unchanged r tpl s : finditer r s = [] -> sub r tpl s = s.
Proof. intros E. unfold sub. rewrite E. reflexivity. Qed.

Lemma In_join sep (xs : list str) x c : In x xs -> In c x -> In c (join sep xs).
Proof.
  induction xs as [|y xs IH]; intros Hx Hc; [destruct Hx|].
  destruct xs as [|z xs].
  - destruct Hx as [<-|[]]. exact Hc.
  - change (join sep (y :: z :: xs)) with (y ++ sep ++ join sep (z :: xs)).
    destruct Hx as [<-|Hx]; apply in_or_app; [left; exact Hc|].
    right. apply in_or_app. right. exact (IH Hx Hc).
Qed.

Lemma In_join_inv sep (xs : list str) c :
  In c (join sep xs) -> In c sep \/ exists x, In x xs /\ In c x.
Proof.
  induction xs as [|y xs IH]; intros H; [destruct H|].
  destruct xs as [|z xs].
  - right. exists y. split; [left; reflexivity|exact H].
  - change (join sep (y :: z :: xs)) with (y ++ sep ++ join sep (z :: xs)) in H.
    apply in_app_or in H. destruct H as [H|H]; [right; exists y; split; [left|]; auto|].
    apply in_app_or in H. destruct H as [H|H]; [left; exact H|].
    destruct (IH H) as [H'|[x [Hx Hc]]]; [left; exact H'|right; exists x; split; [right|]; auto].
Qed.

Lemma In_lstrip s c : In c (lstrip s) -> In c s.
Proof. induction s as [|x s IH]; simpl; auto. destruct (is_space x); simpl; auto. Qed.

Lemma In_strip s c : In c (strip s) -> In c s.
Proof.
  unfold strip. intros H. apply in_rev, In_lstrip in H. apply in_rev in H. exact (In_lstrip _ _ H).
Qed.

Lemma bool_imp (f g : bool) : negb f || g = true -> f = true -> g = true.
Proof. destruct f, g; simpl; congruence. Qed.

Lemma bool_or (f g : bool) : f || g = true -> f = false -> g = true.
Proof. destruct f, g; simpl; congruence. Qed.

(** Upper-casing and the normaliser never produce a separator. *)
Lemma sep_char_fix_upper x : sep_char x = false -> sep_char (fix_char (upper_char x)) = false.
Proof.
  intros Hx. destruct (sep_char (fix_char (upper_char x))) eqn:E; [|reflexivity].
  rewrite <- Hx. symmetry.
  exact (bool_imp _ _ (Strike.ascii_cases
    (fun c => negb (sep_char (fix_char (upper_char c))) || sep_char c)
    ltac:(vm_compute; reflexivity) x) E).
Qed.

(** The normaliser maps a character of its table to a digit and leaves
    every other character alone. *)
Lemma fix_char_image c :
  (mapped c = true -> is_digit (fix_char c) = true) /\
  (mapped c = false -> fix_char c = c).
Proof.
  split; intros M.
  - exact (bool_imp _ _ (Strike.ascii_cases
      (fun c => negb (mapped c) || is_digit (fix_char c))
      ltac:(vm_compute; reflexivity) c) M).
  - apply Ascii.eqb_eq. exact (bool_or _ _ (Strike.ascii_cases
      (fun c => mapped c || Ascii.eqb (fix_char c) c)
      ltac:(vm_compute; reflexivity) c) M).
Qed.

Lemma sep_through (s : str) :
  (forall c, In c s -> sep_char c = false) ->
  forall c, In c (fix_common_digit_errors (upper s)) -> sep_char c = false.
Proof.
  intros Hs c Hc. rewrite Normalizer.fix_map in Hc. unfold upper in Hc. rewrite map_map in Hc.
  apply in_map_iff in Hc. destruct Hc as [x [<- Hx]].
  exact (sep_char_fix_upper x (Hs x Hx)).
Qed.

Lemma sep_through_strip (s : str) :
  (forall c, In c s -> sep_char c = false) ->
  forall c, In c (fix_common_digit_errors (strip (upper s))) -> sep_char c = false.
Proof.
  intros Hs c Hc. rewrite Normalizer.fix_map in Hc. apply in_map_iff in Hc.
  destruct Hc as [x [<- Hx]]. apply In_strip in Hx. unfold upper in Hx.
  apply in_map_iff in Hx. destruct Hx as [y [<- Hy]].
  exact (sep_char_fix_upper y (Hs y Hy)).
Qed.

End Reads.
Import Reads.

(** X2: when no OCR text contains ';', ':' or '.', [extract_time_advanced] only has the candidates of its fourth strategy (line 253: an hour [[0-9]|1[0-5]], whitespace, and a two-digit minute [[0-5][0-9]], on the corrected text; "0930" gives none). Any time it returns is one of them, formatted as [f'{h};{m:02d}']. *)
Theorem time_without_separator (ocr_results : list detection) :
  (forall d c, In d ocr_results -> In c (text d) -> c <> ";"%char /\ c <> ":"%char /\ c <> "."%char) ->
  raw_candidates ocr_results = strategy4 (full_text ocr_results) /\
  forall s, extract_time_advanced ocr_results = Some s ->
    exists h m, In (h, m, 6 # 10) (strategy4 (full_text ocr_results)) /\ s = time_str_of h m.
Proof.
  intros Hno.
  assert (Hd : forall d c, In d ocr_results -> In c (text d) -> sep_char c = false).
  { intros d c Hin Hc. destruct (Hno d c Hin Hc) as [n1 [n2 n3]]. unfold sep_char.
    destruct (Ascii.eqb_spec c ";"); [congruence|]. destruct (Ascii.eqb_spec c ":"); [congruence|].
    destruct (Ascii.eqb_spec c "."); [congruence|]. reflexivity. }
  assert (Hf : forall c, In c (full_text ocr_results) -> sep_char c = false).
  { intros c Hc. unfold full_text in Hc. apply In_join_inv in Hc.
    destruct Hc as [[<-|[]]|[x [Hx Hc]]]; [reflexivity|].
    apply in_map_iff in Hx. destruct Hx as [d [<- Hin]]. exact (Hd d c Hin Hc). }
  assert (N1 : needs sep_char Pat.time_std = true) by (vm_compute; reflexivity).
  assert (N2 : needs sep_char Pat.time_any_min = true) by (vm_compute; reflexivity).
  assert (N3 : needs sep_char Pat.time_valid_hour = true) by (vm_compute; reflexivity).
  assert (N4 : needs sep_char Pat.time_valid_hour2 = true) by (vm_compute; reflexivity).
  assert (N5 : needs sep_char Pat.prob1 = true) by (vm_compute; reflexivity).
  assert (N6 : needs sep_char Pat.prob2 = true) by (vm_compute; reflexivity).
  assert (N7 : needs sep_char Pat.prob3 = true) by (vm_compute; reflexivity).
  assert (N8 : needs sep_char Pat.bad1 = true) by (vm_compute; reflexivity).
  assert (N9 : needs sep_char Pat.bad2 = true) by (vm_compute; reflexivity).
  assert (N10 : needs sep_char Pat.bad3 = true) by (vm_compute; reflexivity).
  assert (N11 : needs sep_char Pat.bad4 = true) by (vm_compute; reflexivity).
  assert (S1 : strategy1 ocr_results = []).
  { unfold strategy1. apply flat_map_nil. intros d Hin.
    assert (Ht := sep_through_strip (text d) (fun c Hc => Hd d c Hin Hc)).
    unfold strategy1_pairs. cbv zeta.
    rewrite (flat_map_nil (fun pattern => flat_map int_pair (findall 2 pattern _))); [reflexivity|].
    intros pattern Hp. rewrite (findall_needs sep_char); [reflexivity| |exact Ht].
    destruct Hp as [<-|[<-|[<-|[]]]]; assumption. }
  assert (S2 : strategy2 (full_text ocr_results) = []).
  { unfold strategy2. apply flat_map_nil. intros pattern Hp.
    rewrite (findall_needs sep_char); [reflexivity| |exact Hf].
    destruct Hp as [<-|[<-|[<-|[]]]]; assumption. }
  assert (S3 : strategy3 (full_text ocr_results) = []).
  { unfold strategy3. apply flat_map_nil. intros pattern Hp.
    rewrite (findall_needs sep_char); [reflexivity| |].
    - destruct Hp as [<-|[<-|[]]]; assumption.
    - apply sep_through. exact Hf. }
  assert (S5 : strategy5 (full_text ocr_results) = []).
  { unfold strategy5. apply flat_map_nil. intros [bad tpl] Hp.
    assert (Nb : needs sep_char bad = true)
      by (destruct Hp as [E|[E|[E|[E|[]]]]]; inversion E; subst; assumption).
    assert (E : finditer bad (full_text ocr_results) = []).
    { destruct (finditer bad (full_text ocr_results)) eqn:E; [reflexivity|].
      exfalso. destruct (finditer_needs sep_char bad (full_text ocr_results) Nb)
        as [c [Hc Hq]]; [rewrite E; discriminate|].
      rewrite (Hf c Hc) in Hq. discriminate. }
    rewrite (sub_unchanged _ _ _ E), str_eqb_refl. reflexivity. }
  assert (R : raw_candidates ocr_results = strategy4 (full_text ocr_results)).
  { unfold raw_candidates. cbv zeta. rewrite S1, S2, S3, S5, app_nil_r. reflexivity. }
  split; [exact R|].
  intros s Hs. apply Ranking.select_in in Hs. apply in_map_iff in Hs.
  destruct Hs as [x [<- Hx]].
  destruct (Pool.found_times_gated _ _ Hx) as [h [m [c [Hin [-> _]]]]].
  rewrite R in Hin. exists h, m. split; [|reflexivity].
  assert (Hc : c = 6 # 10).
  { unfold strategy4 in Hin. apply in_map_iff in Hin. destruct Hin as [[h' m'] [E _]].
    unfold with_conf in E. simpl in E. inversion E. reflexivity. }
  subst c. exact Hin.
Qed.

Lemma time_without_separator_witness :
  raw_candidates [det "9" None; det "30" None] = strategy4 (full_text [det "9" None; det "30" None]) /\
  forall s, extract_time_advanced [det "9" None; det "30" None] = Some s ->
    exists h m, In (h, m, 6 # 10) (strategy4 (full_text [det "9" None; det "30" None])) /\ s = time_str_of h m.
Proof.
  apply time_without_separator. intros d c Hd Hc.
  destruct Hd as [<-|[<-|[]]]; simpl in Hc;
    repeat (destruct Hc as [<-|Hc]; [repeat split; discriminate|]); destruct Hc.
Defined.

(** X3: [fix_common_digit_errors] keeps the length of its input and works character by character: a character of its table becomes a digit, and every other character is kept. For example "Gg" becomes "69". *)
Theorem fix_common_digit_errors_chars (text : str) :
  length (fix_common_digit_errors text) = length text /\
  (forall i c, nth_error text i = Some c ->
     exists c', nth_error (fix_common_digit_errors text) i = Some c' /\
       (if mapped c then is_digit c' = true else c' = c)) /\
  fix_common_digit_errors (lit "Gg") = lit "69".
Proof.
  rewrite Normalizer.fix_map. split; [apply length_map|]. split; [|vm_compute; reflexivity].
  intros i c E. exists (fix_char c). split; [rewrite nth_error_map, E; reflexivity|].
  destruct (fix_char_image c) as [H1 H2].
  destruct (mapped c); [apply H1|apply H2]; reflexivity.
Qed.

Module Nearest.

Definition center_of (r : detection) (c : Q * Q) : Prop := get_center (bbox r) = Some c.

Lemma closer_trans d1 d2 md :
  (d1 < d2)%Q -> closer d2 md = true -> closer d1 md = true.
Proof.
  destruct md as [m|]; simpl; [|auto]. rewrite !Qltb_iff. intros H1 H2.
  exact (Qlt_trans _ _ _ H1 H2).
Qed.

Lemma not_closer_lt d1 d2 md :
  closer d1 md = true -> closer d2 md = false -> (d1 < d2)%Q.
Proof.
  destruct md as [m|]; simpl; [|discriminate]. rewrite Qltb_iff. intros H1 H2.
  apply Qltb_false in H2. exact (Qlt_le_trans _ _ _ H1 H2).
Qed.

Lemma loop_raises a rs md ft :
  find_text_below_loop a rs md ft = None <->
  exists r, In r rs /\ (conf r = None \/ get_center (bbox r) = None).
Proof.
  revert md ft. induction rs as [|r rs IH]; intros md ft; simpl.
  - split; [discriminate|]. intros [r [[] _]].
  - destruct (conf r) as [q|] eqn:Cf; [|split; [intros _; exists r; auto|reflexivity]].
    destruct (get_center (bbox r)) as [c|] eqn:E.
    + assert (Hr : (exists r0, (r = r0 \/ In r0 rs) /\
                     (conf r0 = None \/ get_center (bbox r0) = None)) <->
                   exists r0, In r0 rs /\ (conf r0 = None \/ get_center (bbox r0) = None)).
      { split; [intros [r0 [[<-|H] H']]; [destruct H'; congruence|eauto]|intros [r0 [H H']]; eauto]. }
      rewrite Hr. destruct (below_near a c); [destruct (closer (sq_dist a c) md)|]; apply IH.
    + split; [intros _; exists r; auto|reflexivity].
Qed.

Lemma loop_spec a rs : forall md ft res,
  find_text_below_loop a rs md ft = Some res ->
  (res = ft /\ forall r c, In r rs -> center_of r c -> below_near a c = true ->
                closer (sq_dist a c) md = false)
  \/ (exists pre r post c,
        rs = pre ++ r :: post /\ center_of r c /\ below_near a c = true /\
        closer (sq_dist a c) md = true /\ res = Some (strip (text r)) /\
        (forall r' c', In r' pre -> center_of r' c' -> below_near a c' = true ->
           (sq_dist a c < sq_dist a c')%Q) /\
        (forall r' c', In r' post -> center_of r' c' -> below_near a c' = true ->
           (sq_dist a c <= sq_dist a c')%Q)).
Proof.
  induction rs as [|r rs IH]; intros md ft res H; simpl in H.
  - inversion H; subst. left. split; [reflexivity|]. intros r c [].
  - destruct (conf r) as [q|]; [|discriminate].
    destruct (get_center (bbox r)) as [c|] eqn:E; [|discriminate].
    destruct (below_near a c) eqn:B; [destruct (closer (sq_dist a c) md) eqn:C|].
    + destruct (IH _ _ _ H) as [[-> Hall]|[pre [r1 [post [c1 [Hrs [Hc1 [B1 [C1 [-> [Hpre Hpost]]]]]]]]]]].
      * right. exists [], r, rs, c. repeat split; auto.
        -- intros r' c' [].
        -- intros r' c' Hin Hc' B'. specialize (Hall r' c' Hin Hc' B').
           simpl in Hall. apply Qltb_false in Hall. exact Hall.
      * right. exists (r :: pre), r1, post, c1. split; [rewrite Hrs; reflexivity|].
        simpl in C1. apply Qltb_iff in C1.
        repeat split; auto.
        -- apply (closer_trans _ _ _ C1 C).
        -- intros r' c' [<-|Hin] Hc' B'.
           ++ unfold center_of in Hc'. rewrite E in Hc'. inversion Hc'; subst. exact C1.
           ++ exact (Hpre r' c' Hin Hc' B').
    + destruct (IH _ _ _ H) as [[-> Hall]|[pre [r1 [post [c1 [Hrs [Hc1 [B1 [C1 [-> [Hpre Hpost]]]]]]]]]]].
      * left. split; [reflexivity|]. intros r' c' [<-|Hin] Hc' B'.
        -- unfold center_of in Hc'. rewrite E in Hc'. inversion Hc'; subst. exact C.
        -- exact (Hall r' c' Hin Hc' B').
      * right. exists (r :: pre), r1, post, c1. split; [rewrite Hrs; reflexivity|].
        repeat split; auto. intros r' c' [<-|Hin] Hc' B'.
        -- unfold center_of in Hc'. rewrite E in Hc'. inversion Hc'; subst.
           exact (not_closer_lt _ _ _ C1 C).
        -- exact (Hpre r' c' Hin Hc' B').
    + destruct (IH _ _ _ H) as [[-> Hall]|[pre [r1 [post [c1 [Hrs [Hc1 [B1 [C1 [-> [Hpre Hpost]]]]]]]]]]].
      * left. split; [reflexivity|]. intros r' c' [<-|Hin] Hc' B'.
        -- unfold center_of in Hc'. rewrite E in Hc'. inversion Hc'; subst. congruence.
        -- exact (Hall r' c' Hin Hc' B').
      * right. exists (r :: pre), r1, post, c1. split; [rewrite Hrs; reflexivity|].
        repeat split; auto. intros r' c' [<-|Hin] Hc' B'.
        -- unfold center_of in Hc'. rewrite E in Hc'. inversion Hc'; subst. congruence.
        -- exact (Hpre r' c' Hin Hc' B').
Qed.

End Nearest.

(** X4: [find_text_below] raises (None here) exactly when some result does not unpack into [(bbox, text, prob)] (it has no confidence) or some box has no center. Otherwise it returns None when no detection lies below the anchor within 75 pixels horizontally. If it returns a text, that text is the stripped text of such a detection: strictly nearer than every earlier one, and no farther than every later one. *)
Theorem find_text_below_nearest (anchor_location : Q * Q) (all_results : list detection) :
  (find_text_below anchor_location all_results = None <->
     exists r, In r all_results /\ (conf r = None \/ get_center (bbox r) = None)) /\
  forall found_text, find_text_below anchor_location all_results = Some found_text ->
    (found_text = None <->
       forall r c, In r all_results -> get_center (bbox r) = Some c ->
         below_near anchor_location c = false) /\
    forall t, found_text = Some t ->
      exists pre r post c,
        all_results = pre ++ r :: post /\ get_center (bbox r) = Some c /\
        below_near anchor_location c = true /\ t = strip (text r) /\
        (forall r' c', In r' pre -> get_center (bbox r') = Some c' ->
           below_near anchor_location c' = true ->
           (sq_dist anchor_location c < sq_dist anchor_location c')%Q) /\
        (forall r' c', In r' post -> get_center (bbox r') = Some c' ->
           below_near anchor_location c' = true ->
           (sq_dist anchor_location c <= sq_dist anchor_location c')%Q).
Proof.
  split; [apply Nearest.loop_raises|].
  intros found_text H. unfold find_text_below in H.
  destruct (Nearest.loop_spec _ _ _ _ _ H)
    as [[-> Hall]|[pre [r [post [c [Hrs [Hc [B [_ [-> [Hpre Hpost]]]]]]]]]]].
  - split.
    + split; [|reflexivity]. intros _ r c Hin Hc. destruct (below_near anchor_location c) eqn:B; [|reflexivity].
      specialize (Hall r c Hin Hc B). discriminate.
    + intros t E. discriminate.
  - split.
    + split; [discriminate|]. intros Hno. rewrite (Hno r c) in B; [discriminate| |exact Hc].
      rewrite Hrs. apply in_or_app. right. left. reflexivity.
    + intros t E. inversion E; subst. exists pre, r, post, c. repeat split; auto.
Qed.

Module HybridTime.

Lemma skipn_nth (s : str) n c : nth_error s n = Some c -> skipn n s = c :: skipn (S n) s.
Proof.
  revert s. induction n as [|n IH]; intros [|x s] H; simpl in *; try discriminate.
  - inversion H; reflexivity.
  - apply IH; exact H.
Qed.

Definition sep_ok (sep : ascii) : Prop := sep = ":"%char \/ sep = ";"%char \/ sep = "."%char.

Lemma hybrid_match s i j cp :
  match_at hybrid_time_re s i = Some (j, cp) ->
  exists a sep b rest,
    skipn i s = a ++ sep :: b ++ rest /\ j = i + length a + 1 + length b /\
    1 <= length a <= 2 /\ all_digits a /\ length b = 2 /\ all_digits b /\ sep_ok sep.
Proof.
  unfold match_at, hybrid_time_re, Pat.SEP. cbn [mt]. intros H.
  apply Strike.try_down_some in H. destruct H as [l [Hl H]].
  assert (H2 := Strike.run_hi is_digit (skipn i s) 2).
  destruct (Strike.run_spec _ _ _ l (proj2 Hl)) as [Hlen Hdig].
  destruct (nth_error s (i + l)) as [c|] eqn:E; [|discriminate].
  destruct ((c =? ":")%char || (c =? ";")%char || (c =? ".")%char) eqn:C; [|discriminate].
  apply Strike.try_down_some in H. destruct H as [l' [Hl' H]]. inversion H; subst j cp.
  assert (H2' := Strike.run_hi is_digit (skipn (S (i + l)) s) 2).
  destruct (Strike.run_spec _ _ _ l' (proj2 Hl')) as [Hlen' Hdig'].
  assert (El' : l' = 2) by lia. subst l'.
  exists (firstn l (skipn i s)), c, (firstn 2 (skipn (S (i + l)) s)), (skipn 2 (skipn (S (i + l)) s)).
  rewrite !length_firstn. repeat split; try lia; auto.
  - rewrite <- (firstn_skipn l (skipn i s)) at 1. f_equal.
    rewrite skipn_skipn, Nat.add_comm, (skipn_nth _ _ _ E), firstn_skipn. reflexivity.
  - unfold sep_ok. rewrite !orb_true_iff, !Ascii.eqb_eq in C. tauto.
Qed.

Lemma replace_digits x y (d : str) :
  is_digit x = false -> all_digits d -> Py.replace x y d = d.
Proof.
  intros Hx Hd. unfold Py.replace. rewrite <- (map_id d) at 2. apply map_ext_in.
  intros c Hc. unfold all_digits in Hd. rewrite Forall_forall in Hd.
  destruct (Ascii.eqb c x) eqn:E; [|reflexivity].
  apply Ascii.eqb_eq in E. subst. rewrite Hd in Hx; [discriminate|exact Hc].
Qed.

Lemma replace_app x y a b : Py.replace x y (a ++ b) = Py.replace x y a ++ Py.replace x y b.
Proof. apply map_app. Qed.

Lemma normalize a sep b :
  all_digits a -> all_digits b -> sep_ok sep ->
  Py.replace "." ";" (Py.replace ":" ";" (a ++ sep :: b)) = a ++ ";"%char :: b.
Proof.
  intros Ha Hb Hs.
  rewrite replace_app, (replace_digits _ _ a), replace_app, (replace_digits _ _ a); auto.
  change (sep :: b) with ([sep] ++ b).
  rewrite replace_app, (replace_digits _ _ b), replace_app, (replace_digits _ _ b); auto.
  destruct Hs as [-> | [-> | ->]]; reflexivity.
Qed.

Lemma first_match_spec (ocr_results : list detection) :
  (hybrid_time ocr_results = None <->
     forall r, In r ocr_results -> search hybrid_time_re (text r) = None) /\
  forall found_time, hybrid_time ocr_results = Some found_time ->
    exists pre r post u a sep b v,
      ocr_results = pre ++ r :: post /\
      (forall r', In r' pre -> search hybrid_time_re (text r') = None) /\
      text r = u ++ a ++ sep :: b ++ v /\
      1 <= length a <= 2 /\ all_digits a /\ length b = 2 /\ all_digits b /\
      (sep = ":"%char \/ sep = ";"%char \/ sep = "."%char) /\
      found_time = a ++ ";"%char :: b.
Proof.
  induction ocr_results as [|r rs [IHn IHs]]; simpl.
  - split; [split; [intros _ r []|reflexivity]|discriminate].
  - destruct (search hybrid_time_re (text r)) as [[[i j] cp]|] eqn:S.
    + split.
      * split; [discriminate|]. intros H. rewrite H in S; [discriminate|left; reflexivity].
      * intros t Ht. inversion Ht; subst t.
        destruct (Strike.search_first _ _ _ _ _ S) as [M _].
        destruct (hybrid_match _ _ _ _ M)
          as [a [sep [b [rest [Hsk [Hj [Ha [Hda [Hb [Hdb Hs]]]]]]]]]].
        assert (Hsl : slice (text r) i j = a ++ sep :: b).
        { unfold slice. rewrite Hsk, Hj.
          replace (i + length a + 1 + length b - i) with (length (a ++ sep :: b))
            by (rewrite length_app; simpl; lia).
          rewrite app_comm_cons, app_assoc, firstn_app, Nat.sub_diag, firstn_all. simpl.
          apply app_nil_r. }
        exists [], r, rs, (firstn i (text r)), a, sep, b, rest.
        repeat split; auto; try lia.
        -- intros r' [].
        -- rewrite <- (firstn_skipn i (text r)) at 1. rewrite Hsk. reflexivity.
        -- rewrite Hsl. exact (normalize _ _ _ Hda Hdb Hs).
    + split.
      * rewrite IHn. split.
        -- intros H r' [<- | Hin]; auto.
        -- intros H r' Hin. apply H. right. exact Hin.
      * intros t Ht. destruct (IHs t Ht)
          as [pre [r1 [post [u [a [sep [b [v [Hrs [Hpre Hrest]]]]]]]]]].
        exists (r :: pre), r1, post, u, a, sep, b, v. split; [rewrite Hrs; reflexivity|].
        split; [|exact Hrest]. intros r' [<- | Hin]; auto.
Qed.

End HybridTime.

Module LeadingTime.

Definition two_digit_ok (n : Z) : bool :=
  let a := str_of_Z n in
  (1 <=? length a) && (length a <=? 2) && forallb is_digit a &&
  (length (fmt_0d 2 n) =? 2) && forallb is_digit (fmt_0d 2 n).

Lemma two_digit_all : forallb two_digit_ok (zrange 0 100) = true.
Proof. vm_compute. reflexivity. Qed.

Lemma forallb_digits (a : str) : forallb is_digit a = true -> all_digits a.
Proof. intros H. unfold all_digits. apply Forall_forall. apply forallb_forall. exact H. Qed.

Lemma two_digit_facts (n : Z) : (0 <= n <= 99)%Z ->
  1 <= length (str_of_Z n) <= 2 /\ all_digits (str_of_Z n) /\
  length (fmt_0d 2 n) = 2 /\ all_digits (fmt_0d 2 n).
Proof.
  intros Hn. assert (H := proj1 (forallb_forall _ _) two_digit_all n
                             (Pool.In_zrange 0 100 n ltac:(simpl; lia))).
  unfold two_digit_ok in H. rewrite !andb_true_iff, !Nat.leb_le, Nat.eqb_eq in H.
  destruct H as [[[[H1 H2] H3] H4] H5].
  repeat split; auto using forallb_digits.
Qed.

Lemma match_leading a sep b rest :
  1 <= length a <= 2 -> all_digits a -> length b = 2 -> all_digits b -> HybridTime.sep_ok sep ->
  match_at hybrid_time_re (a ++ sep :: b ++ rest) 0 = Some (length a + 3, []).
Proof.
  intros Ha Hda Hb Hdb Hs.
  assert (Sd : is_digit sep = false) by (destruct Hs as [-> | [-> | ->]]; reflexivity).
  assert (Sc : ((sep =? ":")%char || (sep =? ";")%char || (sep =? ".")%char) = true)
    by (destruct Hs as [-> | [-> | ->]]; reflexivity).
  destruct b as [|m1 [|m2 [|]]]; try (simpl in Hb; lia).
  inversion Hdb as [|? ? M1 Hdb']; inversion Hdb' as [|? ? M2 _]; subst.
  unfold match_at, hybrid_time_re, Pat.SEP.
  destruct a as [|h1 [|h2 [|]]]; try (simpl in Ha; lia).
  - inversion Hda as [|? ? H1 _]; subst.
    cbn [mt app skipn run option_map pred nth_error]. rewrite H1, Sd.
    cbn [try_down Nat.ltb Nat.leb nth_error Nat.add]. rewrite Sc.
    cbn [skipn run option_map pred]. rewrite M1, M2. destruct rest; reflexivity.
  - inversion Hda as [|? ? H1 Hda']; inversion Hda' as [|? ? H2 _]; subst.
    cbn [mt app skipn run option_map pred nth_error]. rewrite H1, H2.
    cbn [try_down Nat.ltb Nat.leb nth_error Nat.add]. rewrite Sc.
    cbn [skipn run option_map pred]. rewrite M1, M2. destruct rest; reflexivity.
Qed.

End LeadingTime.

(** X5: the time search of [find_details_by_hybrid_anchor] returns [h;mm] for a first detection that starts with [str(h)], a separator and [f'{m:02d}'], for any 0 <= h, m <= 99. It does no range check, so for example 99;99 is returned. *)
Theorem hybrid_time_reads_leading_time (bb : list (Z * Z)) (rest : str) (oc : option Q)
    (ocr_results : list detection) (h m : Z) (sep : ascii) :
  (0 <= h <= 99)%Z -> (0 <= m <= 99)%Z ->
  sep = ":"%char \/ sep = ";"%char \/ sep = "."%char ->
  hybrid_time (mkDet bb (str_of_Z h ++ sep :: fmt_0d 2 m ++ rest) oc :: ocr_results) =
    Some (time_str_of h m).
Proof.
  intros Hh Hm Hs.
  destruct (LeadingTime.two_digit_facts h Hh) as [Ha [Hda _]].
  destruct (LeadingTime.two_digit_facts m Hm) as [_ [_ [Hb Hdb]]].
  cbn [hybrid_time text].
  assert (Hx := LeadingTime.match_leading _ _ _ rest Ha Hda Hb Hdb Hs).
  unfold search, finditer.
  cbn [scan]. rewrite Hx. cbn [Nat.ltb Nat.leb hd_error].
  replace ((length (str_of_Z h ++ sep :: fmt_0d 2 m ++ rest) <? 0)) with false
    by (symmetry; apply Nat.ltb_ge; lia).
  cbn [hd_error].
  assert (Hsl : slice (str_of_Z h ++ sep :: fmt_0d 2 m ++ rest) 0 (length (str_of_Z h) + 3)
                = str_of_Z h ++ sep :: fmt_0d 2 m).
  { unfold slice. rewrite Nat.sub_0_r. cbn [skipn].
    rewrite app_comm_cons, app_assoc, firstn_app.
    replace (length (str_of_Z h) + 3 - length (str_of_Z h ++ sep :: fmt_0d 2 m)) with 0
      by (rewrite length_app; simpl; lia).
    rewrite firstn_O, app_nil_r. apply firstn_all2. rewrite length_app. simpl. lia. }
  rewrite Hsl, HybridTime.normalize by assumption. reflexivity.
Qed.

Lemma hybrid_time_reads_leading_time_witness :
  hybrid_time [mkDet [] (str_of_Z 99 ++ ":"%char :: fmt_0d 2 99 ++ []) None] =
    Some (time_str_of 99 99) /\ is_valid_time (time_str_of 99 99) = false.
Proof.
  split; [|vm_compute; reflexivity].
  apply (hybrid_time_reads_leading_time [] [] None [] 99 99 ":"); [lia|lia|left; reflexivity].
Defined.

(** X6: the time search of [find_details_by_hybrid_anchor] finds nothing exactly when no detection matches [\d{1,2}[:;.]\d{2}]. Otherwise its result comes from the first matching detection: one or two digits, then a separator, then two digits, with the separator replaced by ';'. *)
Theorem hybrid_time_first_match (ocr_results : list detection) :
  (hybrid_time ocr_results = None <->
     forall r, In r ocr_results -> search hybrid_time_re (text r) = None) /\
  forall found_time, hybrid_time ocr_results = Some found_time ->
    exists pre r post u a sep b v,
      ocr_results = pre ++ r :: post /\
      (forall r', In r' pre -> search hybrid_time_re (text r') = None) /\
      text r = u ++ a ++ sep :: b ++ v /\
      1 <= length a <= 2 /\ all_digits a /\ length b = 2 /\ all_digits b /\
      (sep = ":"%char \/ sep = ";"%char \/ sep = "."%char) /\
      found_time = a ++ ";"%char :: b.
Proof. exact (HybridTime.first_match_spec ocr_results). Qed.

Module HybridCompany.

Lemma find_anchors_no_symbol rs : forall sym st sym' st',
  (forall r, In r rs -> in_str (lit "symbol") (clean_text (text r)) = false) ->
  find_anchors rs sym st = Some (sym', st') -> sym' = sym.
Proof.
  induction rs as [|r rs IH]; intros sym st sym' st' Hno H; cbn [find_anchors] in H.
  - inversion H; reflexivity.
  - destruct (conf r); [|discriminate].
    rewrite (Hno r (or_introl eq_refl)) in H.
    destruct (if in_str (lit "strike1") (clean_text (text r))
              then option_map Some (get_center (bbox r)) else Some st) as [st1|]; [|discriminate].
    apply (IH _ _ _ _ (fun r' Hr' => Hno r' (or_intror Hr')) H).
Qed.

Lemma hybrid_company_in ds ks loc c :
  hybrid_company ds ks loc = Some (Some c) -> In c ks.
Proof.
  unfold hybrid_company. intros H.
  assert (Hf : forall x, find (fun company => in_str company (all_text ds)) ks = Some x -> In x ks)
    by (intros x Hx; exact (proj1 (find_some _ _ Hx))).
  destruct loc as [loc|].
  - destruct (find_text_below loc ds) as [[cc|]|]; [| |discriminate].
    + revert H. destruct cc as [|x cc']; cbn [truthy andb negb].
      * intros H. destruct (find _ ks) as [y|] eqn:F; inversion H; subst; auto.
      * destruct (in_list (upper (x :: cc')) ks) eqn:Ein; cbn [negb truthy]; intros H.
        -- inversion H; subst. apply DictFacts.existsb_str_In. exact Ein.
        -- destruct (find _ ks) as [y|] eqn:F; inversion H; subst; auto.
    + simpl in H. destruct (find _ ks) as [x|] eqn:F; inversion H; subst; auto.
  - simpl in H. destruct (find _ ks) as [x|] eqn:F; inversion H; subst; auto.
Qed.

Lemma details_company_spec (ocr_results : list detection) (known_companies : list str) :
  (forall company strike_raw time_str,
     find_details_by_hybrid_anchor ocr_results known_companies = Some (Some company, strike_raw, time_str) ->
     In company known_companies) /\
  ((forall r, In r ocr_results -> in_str (lit "symbol") (clean_text (text r)) = false) ->
   forall found_company strike_raw time_str,
     find_details_by_hybrid_anchor ocr_results known_companies = Some (found_company, strike_raw, time_str) ->
     found_company = find (fun company => in_str company (all_text ocr_results)) known_companies).
Proof.
  unfold find_details_by_hybrid_anchor. split.
  - intros c s t H.
    destruct (find_anchors ocr_results None None) as [[sym st]|]; [|discriminate].
    destruct (hybrid_company ocr_results known_companies sym) as [fc|] eqn:E; [|discriminate].
    destruct (match st with Some loc => find_text_below loc ocr_results | None => Some None end);
      [|discriminate].
    inversion H; subst. exact (hybrid_company_in _ _ _ _ E).
  - intros Hno c s t H.
    destruct (find_anchors ocr_results None None) as [[sym st]|] eqn:A; [|discriminate].
    rewrite (find_anchors_no_symbol _ _ _ _ _ Hno A) in H.
    unfold hybrid_company in H. simpl in H.
    destruct (find _ known_companies) as [x|];
    destruct (match st with Some loc => find_text_below loc ocr_results | None => Some None end);
      inversion H; reflexivity.
Qed.

End HybridCompany.

(** X7: a company found by [find_details_by_hybrid_anchor] is always one of [known_companies]. Without a "symbol" anchor it is the first known company that occurs in the upper-cased, space-joined text. *)
Theorem hybrid_company_from_registry (ocr_results : list detection) (known_companies : list str) :
  (forall company strike_raw time_str,
     find_details_by_hybrid_anchor ocr_results known_companies = Some (Some company, strike_raw, time_str) ->
     In company known_companies) /\
  ((forall r, In r ocr_results -> in_str (lit "symbol") (clean_text (text r)) = false) ->
   forall found_company strike_raw time_str,
     find_details_by_hybrid_anchor ocr_results known_companies = Some (found_company, strike_raw, time_str) ->
     found_company = find (fun company => in_str company (all_text ocr_results)) known_companies).
Proof. exact (HybridCompany.details_company_spec ocr_results known_companies). Qed.

Lemma hybrid_company_from_registry_witness :
  find_details_by_hybrid_anchor [det "ABB 9:30" (Some (9 # 10))] [lit "ABB"] =
    Some (Some (lit "ABB"), None, Some (lit "9;30")) /\
  Some (lit "ABB") = find (fun company => in_str company (all_text [det "ABB 9:30" (Some (9 # 10))])) [lit "ABB"].
Proof.
  split; [vm_compute; reflexivity|].
  apply (proj2 (hybrid_company_from_registry [det "ABB 9:30" (Some (9 # 10))] [lit "ABB"]))
    with (strike_raw := None) (time_str := Some (lit "9;30")).
  - intros r [<- | []]. vm_compute. reflexivity.
  - vm_compute. reflexivity.
Defined.

Module DigitRun.

Lemma match_at_digits s i :
  match_at digits_re s i =
    if 1 <=? run is_digit (skipn i s) None then Some (i + run is_digit (skipn i s) None, []) else None.
Proof.
  unfold match_at, digits_re. cbn [mt].
  destruct (run is_digit (skipn i s) None) as [|n]; reflexivity.
Qed.

Lemma run_none_max p s :
  Forall (fun c => p c = true) (firstn (run p s None) s) /\
  match skipn (run p s None) s with d :: _ => p d = false | [] => True end.
Proof.
  induction s as [|c s [IH1 IH2]]; simpl; [split; [constructor|exact I]|].
  destruct (p c) eqn:P; simpl.
  - split; [constructor; auto|exact IH2].
  - split; [constructor|exact P].
Qed.

Lemma run_zero p s : run p s None = 0 -> match s with d :: _ => p d = false | [] => True end.
Proof. destruct s as [|c s]; simpl; [auto|]. destruct (p c); [discriminate|auto]. Qed.

Lemma run_pos p c s : p c = true -> 1 <= run p (c :: s) None.
Proof. simpl. intros ->. lia. Qed.

Lemma nth_skipn (s : str) i c : nth_error s i = Some c -> exists t, skipn i s = c :: t.
Proof.
  revert s. induction i as [|i IH]; intros [|x s] H; simpl in *; try discriminate.
  - inversion H; subst. eauto.
  - apply IH, H.
Qed.

Lemma scan_none fuel s i :
  (forall k, i <= k -> match_at digits_re s k = None) -> scan fuel digits_re s i = [].
Proof.
  revert i. induction fuel as [|f IH]; intros i H; simpl; [reflexivity|].
  destruct (length s <? i); [reflexivity|]. rewrite H by lia. apply IH. intros k Hk. apply H. lia.
Qed.

Lemma scan_none_inv fuel s i :
  length s < fuel + i -> scan fuel digits_re s i = [] ->
  forall k, i <= k <= length s -> match_at digits_re s k = None.
Proof.
  revert i. induction fuel as [|f IH]; intros i Hf H k Hk; simpl in H; [lia|].
  destruct (length s <? i) eqn:L; [apply Nat.ltb_lt in L; lia|].
  destruct (match_at digits_re s i) as [[j cp]|] eqn:M; [discriminate|].
  destruct (Nat.eq_dec k i) as [->|Hne]; [exact M|]. apply (IH (S i)); auto; lia.
Qed.

Lemma strike_fields_spec (strike_raw : str) :
  (strike_fields strike_raw = None <->
     forall c, In c (strike_str_cleaned strike_raw) -> is_digit c = false) /\
  forall strike_num option_type,
    strike_fields strike_raw = Some (strike_num, option_type) ->
    exists u v,
      strike_str_cleaned strike_raw = u ++ strike_num ++ v /\
      strike_num <> [] /\ all_digits strike_num /\
      (forall c, In c u -> is_digit c = false) /\
      match v with d :: _ => is_digit d = false | [] => True end.
Proof.
  unfold strike_fields. set (s := strike_str_cleaned strike_raw). split.
  - split.
    + destruct (search digits_re s) as [[[i j] cp]|] eqn:Srch; [discriminate|intros _].
      unfold search, finditer in Srch. destruct (scan _ _ _ _) eqn:Sc; [|discriminate].
      intros c Hc. destruct (In_nth_error _ _ Hc) as [k Hk].
      assert (Hlt : k < length s) by (apply nth_error_Some; congruence).
      assert (M := DigitRun.scan_none_inv (S (length s)) s 0 ltac:(lia) Sc k ltac:(lia)).
      rewrite DigitRun.match_at_digits in M.
      destruct (DigitRun.nth_skipn _ _ _ Hk) as [t Ht]. rewrite Ht in M.
      destruct (is_digit c) eqn:D; [|reflexivity].
      rewrite (proj2 (Nat.leb_le _ _) (DigitRun.run_pos _ _ t D)) in M. discriminate.
    + intros H. unfold search, finditer. rewrite DigitRun.scan_none; [reflexivity|].
      intros k _. rewrite DigitRun.match_at_digits.
      destruct (skipn k s) as [|c t] eqn:E; [reflexivity|].
      assert (Hc : In c s).
      { rewrite <- (firstn_skipn k s), E. apply in_or_app. right. left. reflexivity. }
      simpl. rewrite (H c Hc). reflexivity.
  - intros n o H.
    destruct (search digits_re s) as [[[i j] cp]|] eqn:Srch; [|discriminate].
    inversion H; subst n o. clear H.
    destruct (Strike.search_first _ _ _ _ _ Srch) as [M Hbefore].
    rewrite DigitRun.match_at_digits in M.
    destruct (1 <=? run is_digit (skipn i s) None) eqn:P; [|discriminate].
    apply Nat.leb_le in P. inversion M; subst j cp. clear M.
    set (l := run is_digit (skipn i s) None) in *.
    destruct (DigitRun.run_none_max is_digit (skipn i s)) as [Hd Hv]. fold l in Hd, Hv.
    assert (Hl : l <= length (skipn i s)) by exact (proj1 (Strike.run_spec _ _ None l (le_n _))).
    assert (Hsl : slice s i (i + l) = firstn l (skipn i s))
      by (unfold slice; f_equal; lia).
    exists (firstn i s), (skipn l (skipn i s)). rewrite Hsl. repeat split.
    + rewrite firstn_skipn, firstn_skipn. reflexivity.
    + intros E. apply (f_equal (@length ascii)) in E. rewrite length_firstn in E. simpl in E. lia.
    + exact Hd.
    + intros c Hc. destruct (In_nth_error _ _ Hc) as [k Hk].
      assert (Hki : k < i).
      { assert (k < length (firstn i s)) by (apply nth_error_Some; congruence).
        rewrite length_firstn in H. lia. }
      rewrite nth_error_firstn in Hk. destruct (k <? i); [|discriminate].
      assert (Mk := Hbefore k Hki). rewrite DigitRun.match_at_digits in Mk.
      destruct (DigitRun.nth_skipn _ _ _ Hk) as [t Ht]. rewrite Ht in Mk.
      destruct (is_digit c) eqn:D; [|reflexivity].
      rewrite (proj2 (Nat.leb_le _ _) (DigitRun.run_pos _ _ t D)) in Mk. discriminate.
    + exact Hv.
Qed.

End DigitRun.

(** X8: in the Smart tool, the strike number is the first maximal run of digits of the cleaned strike text (upper-cased, ".00" removed, 'O' replaced by '0'). [re.search(...).group(0)] fails (None here) exactly when the cleaned text has no digit. *)
Theorem strike_fields_digit_run (strike_raw : str) :
  (strike_fields strike_raw = None <->
     forall c, In c (strike_str_cleaned strike_raw) -> is_digit c = false) /\
  forall strike_num option_type,
    strike_fields strike_raw = Some (strike_num, option_type) ->
    exists u v,
      strike_str_cleaned strike_raw = u ++ strike_num ++ v /\
      strike_num <> [] /\ all_digits strike_num /\
      (forall c, In c u -> is_digit c = false) /\
      match v with d :: _ => is_digit d = false | [] => True end.
Proof. exact (DigitRun.strike_fields_spec strike_raw). Qed.



Module FS.

Lemma lookup_del_same (d : list (str * str)) k : Dict.lookup (del d k) k = None.
Proof.
  induction d as [|[k' v] d IH]; simpl; [reflexivity|].
  destruct (str_eqb k' k) eqn:E; simpl; [exact IH|]. rewrite E. exact IH.
Qed.

Lemma lookup_del_other (d : list (str * str)) k k' :
  k <> k' -> Dict.lookup (del d k) k' = Dict.lookup d k'.
Proof.
  intros Hne. induction d as [|[k0 v] d IH]; simpl; [reflexivity|].
  destruct (str_eqb k0 k) eqn:E; simpl.
  - apply str_eqb_eq in E. subst k0.
    destruct (str_eqb k k') eqn:E'; [apply str_eqb_eq in E'; congruence|exact IH].
  - destruct (str_eqb k0 k'); [reflexivity|exact IH].
Qed.

Lemma makedirs_files s n s' : os_makedirs s n = Some s' -> fs_files s' = fs_files s.
Proof.
  unfold os_makedirs. destruct (path_exists s n); [discriminate|].
  destruct (existsb _ _); [discriminate|]. intros H. inversion H. reflexivity.
Qed.

Lemma remove_spec s p s' :
  os_remove s p = Some s' ->
  Dict.lookup (fs_files s) p <> None /\ Dict.lookup (fs_files s') p = None /\
  forall q, q <> p -> Dict.lookup (fs_files s') q = Dict.lookup (fs_files s) q.
Proof.
  unfold os_remove. destruct (Dict.lookup (fs_files s) p) as [c|] eqn:E; [|discriminate].
  intros H. inversion H; subst s'. simpl. repeat split.
  - discriminate.
  - apply lookup_del_same.
  - intros q Hq. apply lookup_del_other. congruence.
Qed.

Lemma rename_spec s src dst s' :
  os_rename s src dst = Some s' ->
  exists c, Dict.lookup (fs_files s) src = Some c /\ Dict.lookup (fs_files s') dst = Some c /\
    (src <> dst -> Dict.lookup (fs_files s') src = None) /\
    forall p, p <> src -> p <> dst -> Dict.lookup (fs_files s') p = Dict.lookup (fs_files s) p.
Proof.
  unfold os_rename. destruct (Dict.lookup (fs_files s) src) as [c|] eqn:E; [|discriminate].
  destruct (in_list dst (fs_dirs s)); [discriminate|].
  destruct (dir_exists s (dirname dst)); [|discriminate].
  intros H. inversion H; subst s'. simpl. exists c. repeat split; auto.
  - apply DictFacts.lookup_set_same.
  - intros Hne. rewrite DictFacts.lookup_set_other by congruence. apply lookup_del_same.
  - intros p Hp1 Hp2. rewrite DictFacts.lookup_set_other by congruence.
    apply lookup_del_other. congruence.
Qed.

Lemma sv_truthy o : truthy o = true -> exists x, o = Some x /\ x <> [].
Proof. destruct o as [[|c x]|]; simpl; try discriminate. intros _. eexists; split; [reflexivity|discriminate]. Qed.

Lemma move_spec (fi : file_info) (fileDate : str) (s s' : fs) (r : move_result) :
  move_file_threaded fi fileDate s = (s', r) ->
  (forall folder_name new_filename,
     r = Moved folder_name new_filename \/ r = KeptNewer folder_name new_filename ->
     exists company strike_num option_type time_str,
       fi_company fi = Some company /\ fi_strike_num fi = Some strike_num /\
       fi_option_type fi = Some option_type /\ fi_time_str fi = Some time_str /\
       company <> [] /\ strike_num <> [] /\ option_type <> [] /\ is_valid_time time_str = true /\
       folder_name = folder_name_of company strike_num option_type /\
       new_filename = new_filename_of fileDate company strike_num option_type time_str /\
       let full_path := path_join folder_name new_filename in
       Dict.lookup (fs_files s) (fi_filename fi) <> None /\
       Dict.lookup (fs_files s') full_path = Dict.lookup (fs_files s) (fi_filename fi) /\
       (fi_filename fi <> full_path -> Dict.lookup (fs_files s') (fi_filename fi) = None) /\
       (forall p, p <> fi_filename fi -> p <> full_path ->
          Dict.lookup (fs_files s') p = Dict.lookup (fs_files s) p)) /\
  (forall fail_reason filename, r = Deleted fail_reason filename ->
     filename = fi_filename fi /\ fail_reason <> [] /\
     fail_reason = fail_reason_of (fi_company fi) (fi_strike_num fi) (fi_option_type fi) (fi_time_str fi) /\
     Dict.lookup (fs_files s) filename <> None /\ Dict.lookup (fs_files s') filename = None /\
     forall p, p <> filename -> Dict.lookup (fs_files s') p = Dict.lookup (fs_files s) p).
Proof.
  destruct fi as [F company strike_num option_type time_str]. unfold move_file_threaded. cbn -[is_valid_time path_exists os_makedirs os_rename os_remove].
  destruct (truthy company && truthy strike_num && truthy option_type && truthy time_str
            && is_valid_time (sv time_str)) eqn:T.
  - rewrite !andb_true_iff in T. destruct T as [[[[Tc Ts] To] Tt] V].
    destruct (sv_truthy _ Tc) as [c [-> Hc]]. destruct (sv_truthy _ Ts) as [sn [-> Hsn]].
    destruct (sv_truthy _ To) as [ot [-> Hot]]. destruct (sv_truthy _ Tt) as [t [-> Ht]].
    simpl sv in *.
    set (fo := folder_name_of c sn ot). set (nf := new_filename_of fileDate c sn ot t).
    set (fp := path_join fo nf).
    destruct (if negb (path_exists s fo) then os_makedirs s fo else Some s) as [s1|] eqn:M.
    2:{ intros H. inversion H; subst. split; intros; [destruct H0; discriminate|discriminate]. }
    assert (F1 : fs_files s1 = fs_files s).
    { destruct (negb (path_exists s fo)); [exact (makedirs_files _ _ _ M)|inversion M; reflexivity]. }
    intros H. split; [|intros ? ? E; subst r; destruct (negb (path_exists s1 fp));
                        [destruct (os_rename s1 F fp)|destruct (os_remove s1 fp) as [s2|];
                         [destruct (os_rename s2 F fp)|]]; inversion H; subst; discriminate].
    intros fo' nf' Hr. exists c, sn, ot, t.
    destruct (negb (path_exists s1 fp)).
    + destruct (os_rename s1 F fp) as [s2|] eqn:R; inversion H; subst s' r;
        [|destruct Hr; discriminate].
      destruct Hr as [Hr|Hr]; inversion Hr; subst fo' nf'.
      destruct (rename_spec _ _ _ _ R) as [x [Hx [Hd [Hs Ho]]]]. rewrite F1 in Hx, Ho.
      repeat split; auto; fold fp.
      * congruence.
      * congruence.
    + destruct (os_remove s1 fp) as [s2|] eqn:Rm; [|inversion H; subst; destruct Hr; discriminate].
      destruct (os_rename s2 F fp) as [s3|] eqn:R; inversion H; subst s' r;
        [|destruct Hr; discriminate].
      destruct Hr as [Hr|Hr]; inversion Hr; subst fo' nf'.
      destruct (remove_spec _ _ _ Rm) as [_ [Hgone Hrest]].
      destruct (rename_spec _ _ _ _ R) as [x [Hx [Hd [Hs Ho]]]].
      assert (Hne : F <> fp) by (intros ->; congruence).
      rewrite Hrest, F1 in Hx by exact Hne.
      repeat split; auto; fold fp.
      * congruence.
      * congruence.
      * intros p Hp1 Hp2. rewrite Ho, Hrest, F1 by auto. reflexivity.
  - destruct (os_remove s F) as [s1|] eqn:Rm; intros H; inversion H; subst s' r.
    + split; [intros ? ? [E|E]; discriminate|].
      intros fr f E. inversion E; subst fr f.
      destruct (remove_spec _ _ _ Rm) as [H1 [H2 H3]].
      repeat split; auto.
      unfold fail_reason_of.
      rewrite !andb_false_iff in T.
      destruct (truthy company), (truthy strike_num), (truthy option_type), (truthy time_str);
        simpl; try discriminate.
      destruct (is_valid_time (sv time_str)); [|discriminate].
      destruct T as [[[[T|T]|T]|T]|T]; discriminate.
    + split; [intros ? ? [E|E]; discriminate|intros ? ? E; discriminate].
Qed.

End FS.

Module Pipeline.

Lemma extract_valid ds t : extract_time_advanced ds = Some t -> is_valid_time t = true.
Proof.
  unfold extract_time_advanced. intros H. apply Ranking.select_in in H.
  apply in_map_iff in H. destruct H as [x [<- Hx]].
  destruct (Pool.found_times_gated _ _ Hx) as [h [m [c [_ [-> V]]]]]. simpl fst.
  unfold time_str_of. change (lit ";" ++ fmt_0d 2 m) with (";"%char :: fmt_0d 2 m).
  rewrite ValidTime.is_valid_time_join by
    (auto using ValidTime.str_of_Z_no_sep, ValidTime.fmt_0d_no_sep).
  unfold parse_hm. rewrite Numerals.int_str_of_Z, Numerals.int_fmt_0d. exact V.
Qed.

Lemma digits_of_pos_ne f n acc : acc <> [] -> digits_of_pos f n acc <> [].
Proof.
  revert n acc. induction f as [|f IH]; intros n acc H; simpl; [exact H|].
  destruct (n <? 10)%Z; [discriminate|apply IH; discriminate].
Qed.

Lemma str_of_Z_ne n : str_of_Z n <> [].
Proof.
  unfold str_of_Z. destruct (n <? 0)%Z; [discriminate|].
  simpl. destruct (n <? 10)%Z; [discriminate|apply digits_of_pos_ne; discriminate].
Qed.

Lemma find_strike_ne ds n o : find_strike ds = Some (n, o) -> n <> [] /\ o <> [].
Proof.
  unfold find_strike. destruct (search strike_re (strike_text ds)) as [[[i j] cp]|] eqn:Srch;
    [|discriminate].
  destruct (strike_int _) as [v|]; [|discriminate]. intros H. inversion H; subst n o.
  split; [apply str_of_Z_ne|].
  destruct (Strike.search_first _ _ _ _ _ Srch) as [M _].
  destruct (Strike.strike_match_sound _ _ _ _ M)
    as [L [a [_ [_ [_ [_ [-> [[E1|E1] E2]]]]]]]];
    unfold group; simpl; unfold slice;
    replace (S (S a) - a) with 2 by lia;
    rewrite (Strike.firstn2_nth _ _ _ _ E1 E2); discriminate.
Qed.

Lemma move_details ds ks filename fileDate s s' r :
  move_file_threaded (info_of_details filename (find_all_details ds ks)) fileDate s = (s', r) ->
  (forall fail_reason f, r = Deleted fail_reason f ->
     forall x, In x fail_reason -> In x [lit "Company"; lit "Strike/Option"; lit "Time (not found)"]) /\
  (truthy (find_company ds ks) = true -> find_strike ds <> None ->
   extract_time_advanced ds <> None -> forall fail_reason f, r <> Deleted fail_reason f).
Proof.
  intros H. destruct (FS.move_spec _ _ _ _ _ H) as [_ HD].
  unfold find_all_details, info_of_details in *. simpl in HD.
  split.
  - intros fr f E x Hx. destruct (HD fr f E) as [_ [_ [-> _]]].
    unfold fail_reason_of in Hx. apply in_app_or in Hx. destruct Hx as [Hx|Hx].
    { destruct (truthy _); [destruct Hx|]. destruct Hx as [<-|[]]. left. reflexivity. }
    apply in_app_or in Hx. destruct Hx as [Hx|Hx].
    { destruct (_ || _); [|destruct Hx]. destruct Hx as [<-|[]]. right. left. reflexivity. }
    destruct (extract_time_advanced ds) as [t|] eqn:X.
    + cbn [sv] in Hx. rewrite (extract_valid _ _ X) in Hx.
      destruct (negb (truthy (Some t))); simpl in Hx; [|destruct Hx].
      destruct Hx as [<-|[]]. right. right. left. reflexivity.
    + simpl in Hx. destruct Hx as [<-|[]]. right. right. left. reflexivity.
  - intros Tc Hs Ht fr f E.
    unfold move_file_threaded, find_all_details, info_of_details in H.
    destruct (find_strike ds) as [[n o]|] eqn:FS; [|congruence].
    destruct (find_strike_ne _ _ _ FS) as [Hn Ho].
    destruct (extract_time_advanced ds) as [t|] eqn:X; [|congruence].
    cbn [fi_filename fi_company fi_strike_num fi_option_type fi_time_str option_map fst snd sv] in H.
    rewrite Tc, (extract_valid _ _ X) in H.
    destruct n as [|n0 n]; [congruence|]. destruct o as [|o0 o]; [congruence|].
    destruct t as [|t0 t]; [discriminate (extract_valid _ _ X)|].
    cbn [truthy andb] in H.
    destruct (if negb (path_exists s _) then os_makedirs s _ else Some s) as [s1|];
      [|inversion H; subst; discriminate].
    destruct (negb (path_exists s1 _));
      [destruct (os_rename s1 _ _)|destruct (os_remove s1 _) as [s2|]; [destruct (os_rename s2 _ _)|]];
      inversion H; subst; discriminate.
Qed.

Lemma prefixb_app (p s : str) : prefixb p s = true <-> exists t, s = p ++ t.
Proof.
  revert s. induction p as [|x p IH]; intros s; simpl.
  - split; [intros _; exists s; reflexivity|reflexivity].
  - destruct s as [|y s]; [split; [discriminate|intros [t E]; discriminate]|].
    rewrite andb_true_iff, IH. split.
    + intros [E [t ->]]. apply Ascii.eqb_eq in E. subst. exists t. reflexivity.
    + intros [t E]. inversion E; subst. split; [apply Ascii.eqb_refl|exists t; reflexivity].
Qed.

Lemma smart_processor f : smart_accepts f = true -> processor_accepts f = true.
Proof.
  unfold smart_accepts, processor_accepts. rewrite !andb_true_iff. intros [He Hp].
  rewrite He. split; [reflexivity|].
  apply prefixb_app in Hp. destruct Hp as [t ->]. apply prefixb_app.
  exists (lower t). unfold lower. rewrite map_app. reflexivity.
Qed.

Lemma In_insert_sorted x y l : In y (insert_sorted x l) <-> x = y \/ In y l.
Proof.
  induction l as [|z l IH]; simpl; [tauto|].
  destruct (str_leb x z); simpl; [tauto|]. rewrite IH. tauto.
Qed.

Lemma In_sorted y l : In y (sorted l) <-> In y l.
Proof.
  induction l as [|x l IH]; simpl; [tauto|]. rewrite In_insert_sorted, IH. intuition.
Qed.

Definition chunks (l : list str) (m : nat) : list (list str) :=
  map (fun k => firstn BATCH_SIZE (skipn (k * BATCH_SIZE) l)) (seq 0 m).

Lemma chunks_succ l m : chunks l (S m) = firstn 4 l :: chunks (skipn 4 l) m.
Proof.
  unfold chunks. change (seq 0 (S m)) with (0 :: seq 1 m). cbn [map]. f_equal.
  rewrite <- seq_shift, map_map. apply map_ext. intros k.
  rewrite skipn_skipn. f_equal. f_equal. unfold BATCH_SIZE. lia.
Qed.

Lemma batches_chunks l : batches l = chunks l ((length l + 3) / 4).
Proof.
  unfold batches, py_range, chunks. rewrite map_map. f_equal.
  unfold BATCH_SIZE. f_equal. f_equal. lia.
Qed.

Lemma chunks_count n : 0 < n -> (n + 3) / 4 = S ((n - 4 + 3) / 4).
Proof.
  intros Hn. destruct n as [|[|[|[|[|k]]]]]; try lia; try reflexivity.
  replace (S (S (S (S (S k)))) + 3) with (1 * 4 + (k + 4)) by lia.
  rewrite Nat.div_add_l by lia. replace (S (S (S (S (S k)))) - 4 + 3) with (k + 4) by lia. reflexivity.
Qed.

Lemma chunks_spec (n : nat) : forall l, length l = n ->
  let bs := chunks l ((length l + 3) / 4) in
  concat bs = l /\ Forall (fun b => 1 <= length b <= 4) bs /\
  forall k b, nth_error bs k = Some b -> S k < length bs -> length b = 4.
Proof.
  induction n as [n IH] using lt_wf_ind. intros l Hl bs.
  destruct l as [|x l'].
  - subst bs. simpl. unfold chunks. simpl. split; [reflexivity|split; [constructor|]].
    intros [|k] b H; discriminate.
  - subst bs. remember (x :: l') as l eqn:El.
    assert (Hpos : 1 <= length l) by (subst l; simpl; lia).
    rewrite chunks_count by lia. rewrite chunks_succ.
    assert (Hr : length (skipn 4 l) = length l - 4) by apply length_skipn.
    destruct (IH (length (skipn 4 l)) ltac:(lia) (skipn 4 l) eq_refl)
      as [C [F N]].
    rewrite Hr in C, F, N.
    assert (H4 : 1 <= length (firstn 4 l) <= 4) by (rewrite length_firstn; lia).
    split; [|split].
    + cbn [concat]. rewrite C. apply firstn_skipn.
    + constructor; [exact H4|exact F].
    + intros [|k] b Hb Hk.
      * cbn [nth_error] in Hb. injection Hb as <-.
        change (length (firstn 4 l) = 4). rewrite length_firstn. cbn [length] in Hk. unfold chunks in Hk. rewrite length_map, length_seq in Hk.
        destruct (le_lt_dec 4 (length l)) as [Hle|Hlt]; [lia|].
        exfalso. replace (length l - 4) with 0 in Hk by lia. simpl in Hk. lia.
      * cbn [nth_error length] in Hb, Hk. apply (N k b Hb). lia.
Qed.

End Pipeline.

Module Registry.

Definition lead_ok (s : str) : Prop := match s with c :: _ => is_space c = false | [] => True end.

Lemma lstrip_lead s : lead_ok (lstrip s).
Proof. induction s as [|c s IH]; simpl; [exact I|]. destruct (is_space c) eqn:E; [exact IH|exact E]. Qed.

Lemma lstrip_ok s : lead_ok s -> lstrip s = s.
Proof. destruct s as [|c s]; simpl; [reflexivity|]. intros ->. reflexivity. Qed.

Lemma lstrip_suffix s : exists p, s = p ++ lstrip s.
Proof.
  induction s as [|c s [p IH]]; simpl; [exists []; reflexivity|].
  destruct (is_space c); [exists (c :: p); rewrite IH at 1; reflexivity|exists []; reflexivity].
Qed.

Lemma strip_ends s : lead_ok (strip s) /\ lead_ok (rev (strip s)).
Proof.
  unfold strip. rewrite rev_involutive. split; [|apply lstrip_lead].
  set (t := lstrip s). assert (Ht : lead_ok t) by apply lstrip_lead.
  destruct (lstrip_suffix (rev t)) as [p Hp].
  assert (E : t = rev (lstrip (rev t)) ++ rev p).
  { rewrite <- rev_app_distr, <- Hp, rev_involutive. reflexivity. }
  destruct (rev (lstrip (rev t))) as [|c u] eqn:R; [exact I|].
  rewrite E in Ht. exact Ht.
Qed.

Lemma strip_idem s : strip (strip s) = strip s.
Proof.
  destruct (strip_ends s) as [H1 H2]. unfold strip at 1.
  rewrite (lstrip_ok _ H1), (lstrip_ok _ H2), rev_involutive. reflexivity.
Qed.

Lemma lstrip_map f s : (forall c, is_space (f c) = is_space c) -> lstrip (map f s) = map f (lstrip s).
Proof.
  intros Hf. induction s as [|c s IH]; simpl; [reflexivity|].
  rewrite Hf. destruct (is_space c); [exact IH|reflexivity].
Qed.

Lemma strip_map f s : (forall c, is_space (f c) = is_space c) -> strip (map f s) = map f (strip s).
Proof.
  intros Hf. unfold strip. rewrite lstrip_map, <- map_rev, lstrip_map, <- map_rev by exact Hf.
  reflexivity.
Qed.

Lemma upper_space c : is_space (upper_char c) = is_space c.
Proof.
  apply Bool.eqb_prop.
  exact (Strike.ascii_cases (fun c => Bool.eqb (is_space (upper_char c)) (is_space c))
           ltac:(vm_compute; reflexivity) c).
Qed.

Lemma upper_idem c : upper_char (upper_char c) = upper_char c.
Proof.
  apply Ascii.eqb_eq.
  exact (Strike.ascii_cases (fun c => Ascii.eqb (upper_char (upper_char c)) (upper_char c))
           ltac:(vm_compute; reflexivity) c).
Qed.

Lemma upper_breaks c : upper_char c = LF -> c = LF.
Proof.
  intros H.
  assert (X := Strike.ascii_cases
    (fun c => negb (Ascii.eqb (upper_char c) LF) || Ascii.eqb c LF) ltac:(vm_compute; reflexivity) c).
  cbv beta in X. rewrite H, Ascii.eqb_refl in X. simpl in X. apply Ascii.eqb_eq in X. exact X.
Qed.

Lemma upper_cr c : upper_char c = CR -> c = CR.
Proof.
  intros H.
  assert (X := Strike.ascii_cases
    (fun c => negb (Ascii.eqb (upper_char c) CR) || Ascii.eqb c CR) ltac:(vm_compute; reflexivity) c).
  cbv beta in X. rewrite H, Ascii.eqb_refl in X. simpl in X. apply Ascii.eqb_eq in X. exact X.
Qed.

Lemma no_CR s : ~ In CR (universal_newlines s).
Proof.
  remember (length s) as n eqn:En. revert s En.
  induction n as [n IHn] using lt_wf_ind. intros s En.
  assert (IH : forall t, length t < length s -> ~ In CR (universal_newlines t))
    by (intros t Ht; apply (IHn (length t)); [lia|reflexivity]).
  clear IHn En.
  destruct s as [|c s']; simpl; [tauto|].
  destruct (Ascii.eqb c CR) eqn:E.
  - destruct s' as [|d s'']; [simpl; intros [H|[]]; discriminate|].
    destruct (Ascii.eqb d LF).
    + intros [H|H]; [discriminate|]. exact (IH s'' ltac:(simpl; lia) H).
    + intros [H|H]; [discriminate|]. exact (IH (d :: s'') ltac:(simpl; lia) H).
  - intros [H|H]; [subst; rewrite Ascii.eqb_refl in E; discriminate|].
    exact (IH s' ltac:(simpl; lia) H).
Qed.

(** A line: at most one line feed, at its end. *)
Definition line_ok (l : str) : Prop :=
  exists seg, ~ In LF seg /\ (l = seg \/ l = seg ++ [LF]).

Lemma lines_of_spec s : forall cur, ~ In LF cur ->
  Forall (fun l => line_ok l /\ forall c, In c l -> In c cur \/ In c s) (lines_of cur s).
Proof.
  induction s as [|c s IH]; intros cur Hcur; simpl.
  - destruct cur as [|x cur']; constructor; [|constructor].
    split; [exists (rev (x :: cur')); split; [rewrite <- in_rev; exact Hcur|left; reflexivity]|].
    intros y Hy. left. apply in_rev. exact Hy.
  - destruct (Ascii.eqb c LF) eqn:E.
    + apply Ascii.eqb_eq in E. subst c. constructor.
      * split.
        -- exists (rev cur). split; [rewrite <- in_rev; exact Hcur|right; reflexivity].
        -- intros y Hy. simpl in Hy. apply in_app_or in Hy. destruct Hy as [Hy|[<-|[]]].
           ++ left. apply in_rev. exact Hy.
           ++ right. left. reflexivity.
      * eapply Forall_impl; [|apply IH; simpl; tauto].
        intros l [Hl Hc]. split; [exact Hl|]. intros y Hy. destruct (Hc y Hy) as [[]|H]. tauto.
    + eapply Forall_impl; [|apply IH].
      * intros l [Hl Hc]. split; [exact Hl|]. intros y Hy. destruct (Hc y Hy) as [[<-|H]|H]; tauto.
      * intros [H|H]; [subst; rewrite Ascii.eqb_refl in E; discriminate|tauto].
Qed.

Lemma lstrip_app_space s c : is_space c = true -> lstrip s = [] -> lstrip (s ++ [c]) = [].
Proof.
  intros Hc. induction s as [|x s IH]; simpl; [rewrite Hc; reflexivity|].
  destruct (is_space x); [exact IH|discriminate].
Qed.

Lemma lstrip_app_ne s t : lstrip s <> [] -> lstrip (s ++ t) = lstrip s ++ t.
Proof.
  induction s as [|x s IH]; simpl; [tauto|].
  destruct (is_space x); [exact IH|reflexivity].
Qed.

Lemma strip_snoc_space s c : is_space c = true -> strip (s ++ [c]) = strip s.
Proof.
  intros Hc. unfold strip. destruct (lstrip s) as [|x t] eqn:E.
  - rewrite lstrip_app_space by assumption. reflexivity.
  - rewrite lstrip_app_ne by (rewrite E; discriminate). rewrite E, rev_app_distr. simpl.
    rewrite Hc. reflexivity.
Qed.

Lemma strip_line_no_LF l : line_ok l -> ~ In LF (strip l).
Proof.
  intros [seg [Hs [->| ->]]].
  - intros H. apply Hs. apply Reads.In_strip. exact H.
  - rewrite strip_snoc_space by reflexivity. intros H. apply Hs. apply Reads.In_strip. exact H.
Qed.

Lemma load_spec content :
  Forall (fun k => k <> [] /\ strip k = k /\ upper k = k /\ ~ In LF k /\ ~ In CR k)
    (load_companies content).
Proof.
  unfold load_companies. apply Forall_map. apply Forall_forall.
  intros l Hl. apply filter_In in Hl. destruct Hl as [Hl Hne].
  assert (L := proj1 (Forall_forall _ _) (lines_of_spec (universal_newlines content) [] (fun H => H)) l Hl).
  destruct L as [Lok Lc].
  repeat split.
  - unfold upper. destruct (strip l); [discriminate|discriminate].
  - unfold upper. rewrite strip_map by exact upper_space. rewrite strip_idem. reflexivity.
  - unfold upper. rewrite map_map. apply map_ext. exact upper_idem.
  - unfold upper. intros H. apply in_map_iff in H. destruct H as [c [Hc Hin]].
    apply upper_breaks in Hc. subst c. exact (strip_line_no_LF l Lok Hin).
  - unfold upper. intros H. apply in_map_iff in H. destruct H as [c [Hc Hin]].
    apply upper_cr in Hc. subst c. apply Reads.In_strip in Hin.
    destruct (Lc CR Hin) as [[]|H]. exact (no_CR content H).
Qed.

End Registry.

(** X10: [move_file_threaded] moves a file only when all four fields are nonempty and the time is valid. The file goes to [folder/new_filename], an older copy there is replaced, and no other path changes. Otherwise it deletes exactly the source file, with the fail reasons of the code. *)
Theorem move_file_threaded_effect (file_info : file_info) (fileDate : str) (s : fs) :
  let '(s', r) := move_file_threaded file_info fileDate s in
  (forall folder_name new_filename,
     r = Moved folder_name new_filename \/ r = KeptNewer folder_name new_filename ->
     exists company strike_num option_type time_str,
       fi_company file_info = Some company /\ fi_strike_num file_info = Some strike_num /\
       fi_option_type file_info = Some option_type /\ fi_time_str file_info = Some time_str /\
       company <> [] /\ strike_num <> [] /\ option_type <> [] /\ is_valid_time time_str = true /\
       folder_name = folder_name_of company strike_num option_type /\
       new_filename = new_filename_of fileDate company strike_num option_type time_str /\
       let full_path := path_join folder_name new_filename in
       Dict.lookup (fs_files s) (fi_filename file_info) <> None /\
       Dict.lookup (fs_files s') full_path = Dict.lookup (fs_files s) (fi_filename file_info) /\
       (fi_filename file_info <> full_path -> Dict.lookup (fs_files s') (fi_filename file_info) = None) /\
       (forall p, p <> fi_filename file_info -> p <> full_path ->
          Dict.lookup (fs_files s') p = Dict.lookup (fs_files s) p)) /\
  (forall fail_reason filename, r = Deleted fail_reason filename ->
     filename = fi_filename file_info /\ fail_reason <> [] /\
     fail_reason = fail_reason_of (fi_company file_info) (fi_strike_num file_info)
                     (fi_option_type file_info) (fi_time_str file_info) /\
     Dict.lookup (fs_files s) filename <> None /\ Dict.lookup (fs_files s') filename = None /\
     forall p, p <> filename -> Dict.lookup (fs_files s') p = Dict.lookup (fs_files s) p).
Proof.
  destruct (move_file_threaded file_info fileDate s) as [s' r] eqn:E.
  exact (FS.move_spec _ _ _ _ _ E).
Qed.

(** X11: after [find_all_details] and [process_single_screenshot], [move_file_threaded] only gives the reasons "Company", "Strike/Option" and "Time (not found)" when it deletes a file. When a company, a strike and a time were all found, it never deletes. *)
Theorem move_after_find_all_details (ocr_results : list detection) (known_companies : list str)
    (filename fileDate : str) (s : fs) :
  let '(s', r) :=
    move_file_threaded (info_of_details filename (find_all_details ocr_results known_companies))
      fileDate s in
  (forall fail_reason f, r = Deleted fail_reason f ->
     forall x, In x fail_reason -> In x [lit "Company"; lit "Strike/Option"; lit "Time (not found)"]) /\
  (truthy (find_company ocr_results known_companies) = true -> find_strike ocr_results <> None ->
   extract_time_advanced ocr_results <> None -> forall fail_reason f, r <> Deleted fail_reason f).
Proof.
  destruct (move_file_threaded _ fileDate s) as [s' r] eqn:E.
  exact (Pipeline.move_details _ _ _ _ _ _ _ E).
Qed.

(** X12: every file the Smart tool selects (lower-case name ending in ".png", name starting with "Screenshot") is also selected by the batch processor. *)
Theorem smart_files_included (listing : list str) (f : str) :
  In f (smart_files listing) -> In f (processor_files listing).
Proof.
  unfold smart_files, processor_files. rewrite !Pipeline.In_sorted, !filter_In.
  intros [Hin Ha]. split; [exact Hin|exact (Pipeline.smart_processor f Ha)].
Qed.

Lemma smart_files_included_witness :
  In (lit "Screenshot 1.png") (processor_files [lit "Screenshot 1.png"; lit "notes.txt"]).
Proof.
  apply (smart_files_included [lit "Screenshot 1.png"; lit "notes.txt"] (lit "Screenshot 1.png")).
  vm_compute. left. reflexivity.
Defined.

(** X13: the batches of the processor's main split [files_to_process] in order: their concatenation is the list. There are ceil(n / BATCH_SIZE) of them, each holds 1 to BATCH_SIZE files, and all but the last hold exactly BATCH_SIZE. *)
Theorem batches_partition (files_to_process : list str) :
  concat (batches files_to_process) = files_to_process /\
  length (batches files_to_process) = (length files_to_process + BATCH_SIZE - 1) / BATCH_SIZE /\
  Forall (fun b => 1 <= length b <= BATCH_SIZE) (batches files_to_process) /\
  forall k b, nth_error (batches files_to_process) k = Some b ->
    S k < length (batches files_to_process) -> length b = BATCH_SIZE.
Proof.
  rewrite Pipeline.batches_chunks.
  destruct (Pipeline.chunks_spec _ files_to_process eq_refl) as [C [F N]].
  unfold BATCH_SIZE.
  replace (length files_to_process + 4 - 1) with (length files_to_process + 3) by lia.
  split; [exact C|]. split; [|split; [exact F|exact N]].
  unfold Pipeline.chunks. rewrite length_map, length_seq. reflexivity.
Qed.

(** X14: every entry of [known_companies] read from companies.txt is nonempty, stripped and upper-case, and contains no line break. *)
Theorem load_companies_entries (content : str) :
  Forall (fun company => company <> [] /\ strip company = company /\ upper company = company /\
                         ~ In LF company /\ ~ In CR company)
    (load_companies content).
Proof. exact (Registry.load_spec content). Qed.
